(** * ghost-webhooks: a shallow embedding of the notification relay

    The development follows the three TypeScript sources of the repository:

    - [src/mysql/mysqlClientProvider.ts]: the connection retry loop and the
      two resolvers ([getEmailsByPostId], [getNewsletterNameByPostId]);
    - the Postmark batch sender ([PostmarkBatchEmailSender.send]);
    - [src/index.ts]: the [/hooks] request handler.

    JavaScript values that reach the code unchecked at run time (the JSON
    body of the request, the rows of the database driver, [process.env])
    are modelled by a small type of values with [undefined]; property reads
    on [undefined] or [null] throw.  Effects are threaded through a state
    and exception monad over a [World] that holds the module-level retry
    counter, the connections, the timers slept on, the arrays shared
    between closures, the pending promise reactions and the calls made to
    the provider. *)

From Stdlib Require Import ZArith Lia.
From stdpp Require Import base numbers list strings gmap.
From Equations Require Import Equations.

Set Warnings "-register-all".
Local Open Scope string_scope.
Local Open Scope list_scope.
Local Open Scope nat_scope.

(** ** JavaScript values *)

Inductive value : Type :=
| VUndefined
| VNull
| VBool (b : bool)
| VNum (n : Z)
| VStr (s : string)
| VObj (fields : list (string * value)).

(** What the code can throw. *)
Inductive error : Type :=
| TypeError (property : string)   (* reading [property] of undefined or null *)
| ConnectError                    (* [mysql2.createConnection] rejected *)
| ExecuteError                    (* [connection.execute] rejected *)
| Error (message : string).       (* [new Error(message)] *)

Inductive Outcome (A : Type) : Type :=
| Return (a : A)
| Throw (e : error).
Arguments Return {A} a.
Arguments Throw {A} e.

Fixpoint lookup_field (k : string) (fields : list (string * value)) : value :=
  match fields with
  | [] => VUndefined
  | (k', v) :: rest => if String.eqb k k' then v else lookup_field k rest
  end.

(** [v.k]: a TypeError on undefined and null, the own property of an object
    (or undefined when it has none), undefined on the primitives (none of
    the keys the program reads is a property of a primitive's prototype). *)
Definition get_prop (v : value) (k : string) : Outcome value :=
  match v with
  | VUndefined | VNull => Throw (TypeError k)
  | VObj fields => Return (lookup_field k fields)
  | VBool _ | VNum _ | VStr _ => Return VUndefined
  end.

Definition is_string (v : value) : bool :=
  match v with VStr _ => true | _ => false end.

Definition is_nullish (v : value) : bool :=
  match v with VUndefined | VNull => true | _ => false end.

(** JavaScript truthiness, as used by [a || b]. *)
Definition truthy (v : value) : bool :=
  match v with
  | VUndefined | VNull => false
  | VBool b => b
  | VNum n => negb (n =? 0)%Z
  | VStr s => negb (String.eqb s "")
  | VObj _ => true
  end.

Definition js_or (a b : value) : value := if truthy a then a else b.

Definition of_env (o : option string) : value :=
  match o with Some s => VStr s | None => VUndefined end.

(** ** Data of the program *)

(** [interface UserData]; the fields hold whatever the driver returned. *)
Record UserData := mkUserData {
  email : value;
  name : value;
  uuid : value
}.

(** [type PostmarkTemplateModel] *)
Record PostmarkTemplateModel := mkModel {
  username : value;
  emailFrom : value;
  website_url : value;
  header_image : value;
  user_email : value;
  user_uuid : value;
  created_at : value;
  newsletter_uuid : value;
  newsletterName : value;
  title : value;
  excerpt : value;
  html : value;
  feature_image : value;
  authorName : value;
  authorImage : value;
  postUrl : value
}.

(** One entry of the list given to [sendEmailBatchWithTemplates]. *)
Record Email := mkEmail {
  From : value;
  To : value;
  TemplateId : value;
  TemplateModel : PostmarkTemplateModel
}.

(** [type BatchResponse] *)
Module BatchResponse.
Record t := mk {
  ErrorCode : Z;
  Message : string;
  MessageID : string;
  SubmittedAt : string;
  To : string
}.
End BatchResponse.

(** How the promise returned by the provider settles. *)
Inductive settled : Type :=
| Fulfilled (response : list BatchResponse.t)
| Rejected.

(** A pending [.then] callback of [send]: the closure holds the array
    [failedEmails] by reference. *)
Record Reaction := mkReaction {
  target : nat;
  settlement : settled
}.

Inductive Query : Type := EMAILS_QUERY | NEWSLETTER_QUERY.

(** The column names of the result rows are the aliases of the select list:
    [members.email as email, members.uuid as member_uuid, members.name as name]
    and [name, newsletters.uuid as newsletter_id]. *)
Definition columns (q : Query) : list string :=
  match q with
  | EMAILS_QUERY => ["email"; "member_uuid"; "name"]
  | NEWSLETTER_QUERY => ["name"; "newsletter_id"]
  end.

(** The driver turns a tuple of the result set into an object keyed by the
    column names. *)
Definition row_object (q : Query) (tuple : list value) : value :=
  VObj (zip (columns q) tuple).

(** ** The environment and the world *)

(** What the outside does: whether the i-th [createConnection] of the
    process succeeds, the result set of a query (or [None] when [execute]
    rejects), how the provider settles a batch, and [process.env]. *)
Record Env := mkEnv {
  createConnection : nat -> bool;
  execute : Query -> value -> option (list (list value));
  sendEmailBatchWithTemplates : list Email -> settled;
  MAIL_FROM : option string;
  MAIL_TEMPLATE_ID : option string;
  GHOST_URL : option string
}.

Record World := mkWorld {
  CONNECTION_ATTEMPTS : nat;          (* [let CONNECTION_ATTEMPTS], module level *)
  connect_calls : nat;                (* calls of [createConnection] so far *)
  open_connections : gset nat;        (* connections created and not ended *)
  slept : list Z;                     (* delays of the timers awaited, oldest first *)
  heap : gmap nat (list string);      (* the arrays of strings, by reference *)
  next_loc : nat;
  microtasks : list Reaction;         (* promise reactions not yet run *)
  submitted : list (list Email)       (* batches given to the provider, oldest first *)
}.

(** The state of a fresh process: [let CONNECTION_ATTEMPTS = 1]. *)
Definition initial_world : World :=
  {| CONNECTION_ATTEMPTS := 1; connect_calls := 0; open_connections := ∅;
     slept := []; heap := ∅; next_loc := 0; microtasks := []; submitted := [] |}.

Definition M (A : Type) : Type := World -> Outcome A * World.

Definition ret {A} (a : A) : M A := fun w => (Return a, w).
Definition throw {A} (e : error) : M A := fun w => (Throw e, w).
Definition bind {A B} (m : M A) (k : A -> M B) : M B :=
  fun w => match m w with
           | (Return a, w') => k a w'
           | (Throw e, w') => (Throw e, w')
           end.
Definition try_catch {A} (m : M A) (h : error -> M A) : M A :=
  fun w => match m w with
           | (Return a, w') => (Return a, w')
           | (Throw e, w') => h e w'
           end.
Definition lift {A} (o : Outcome A) : M A := fun w => (o, w).

Declare Scope js_scope.
Delimit Scope js_scope with js.
Notation "x <- m ;; k" := (bind m (fun x => k))
  (at level 100, m at next level, right associativity) : js_scope.
Notation "m ;;; k" := (bind m (fun _ => k))
  (at level 100, right associativity) : js_scope.
Local Open Scope js_scope.

(** ** src/mysql/mysqlClientProvider.ts *)

Definition MAX_CXN_RETRIES : nat := 6.

(** [getRetryDelay], in milliseconds. *)
Definition getRetryDelay (attempts : nat) : Z :=
  let minDelayMillis := 1000%Z in
  let maxDelayMillis := 60000%Z in
  if (maxDelayMillis <? minDelayMillis * 2 ^ Z.of_nat attempts)%Z
  then maxDelayMillis
  else (minDelayMillis * 2 ^ Z.of_nat attempts)%Z.

(** [await new Promise(resolve => setTimeout(resolve, ms))] *)
Definition sleep (ms : Z) : M unit :=
  fun w => (Return tt,
            {| CONNECTION_ATTEMPTS := CONNECTION_ATTEMPTS w;
               connect_calls := connect_calls w;
               open_connections := open_connections w;
               slept := slept w ++ [ms];
               heap := heap w; next_loc := next_loc w;
               microtasks := microtasks w; submitted := submitted w |}).

(** [CONNECTION_ATTEMPTS++] *)
Definition increment_attempts : M unit :=
  fun w => (Return tt,
            {| CONNECTION_ATTEMPTS := S (CONNECTION_ATTEMPTS w);
               connect_calls := connect_calls w;
               open_connections := open_connections w;
               slept := slept w;
               heap := heap w; next_loc := next_loc w;
               microtasks := microtasks w; submitted := submitted w |}).

Section Mysql.
Variable E : Env.

(** [getConnection]: one call of [createConnection]; the connection is
    named by the number of the call. *)
Definition getConnection : M nat :=
  fun w =>
    let c := connect_calls w in
    if createConnection E c
    then (Return c,
          {| CONNECTION_ATTEMPTS := CONNECTION_ATTEMPTS w;
             connect_calls := S c;
             open_connections := {[c]} ∪ open_connections w;
             slept := slept w;
             heap := heap w; next_loc := next_loc w;
             microtasks := microtasks w; submitted := submitted w |})
    else (Throw ConnectError,
          {| CONNECTION_ATTEMPTS := CONNECTION_ATTEMPTS w;
             connect_calls := S c;
             open_connections := open_connections w;
             slept := slept w;
             heap := heap w; next_loc := next_loc w;
             microtasks := microtasks w; submitted := submitted w |}).

(** [connection.end()] *)
Definition connection_end (c : nat) : M unit :=
  fun w => (Return tt,
            {| CONNECTION_ATTEMPTS := CONNECTION_ATTEMPTS w;
               connect_calls := connect_calls w;
               open_connections := open_connections w ∖ {[c]};
               slept := slept w;
               heap := heap w; next_loc := next_loc w;
               microtasks := microtasks w; submitted := submitted w |}).

(** [connection.execute(q, [postId])], the rows as objects. *)
Definition connection_execute (q : Query) (postId : value) : M (list value) :=
  match execute E q postId with
  | Some tuples => ret (map (row_object q) tuples)
  | None => throw ExecuteError
  end.

(** [attemptToConnectMySql]: the [while] loop on the module-level counter.
    Each turn that does not return adds one to the counter, which bounds
    the number of turns. *)
Equations? attemptToConnectMySql (w : World) : Outcome bool * World
  by wf (S MAX_CXN_RETRIES - CONNECTION_ATTEMPTS w) lt :=
attemptToConnectMySql w with Equations.Prop.Logic.inspect (CONNECTION_ATTEMPTS w <=? MAX_CXN_RETRIES)%nat := {
  | exist _ false Hgt =>
      (Throw (Error "Failed to connect to the database after multiple attempts."), w)
  | exist _ true Hle with Equations.Prop.Logic.inspect (getConnection w) := {
      | exist _ (Return _, w1) Hok => (Return true, w1)
      | exist _ (Throw _, w1) Hconn =>
          attemptToConnectMySql
            (increment_attempts
               (sleep (getRetryDelay (CONNECTION_ATTEMPTS w1)) w1).2).2 } }.
Proof.
  assert (CONNECTION_ATTEMPTS w1 = CONNECTION_ATTEMPTS w) as Hc.
  { unfold getConnection in Hconn.
    destruct (createConnection E _); inversion Hconn; reflexivity. }
  apply Nat.leb_le in Hle. unfold MAX_CXN_RETRIES in *. rewrite Hc. lia.
Qed.

(** [rows[i]]: undefined past the end of the array. *)
Definition index (rows : list value) (i : nat) : value :=
  match rows !! i with Some row => row | None => VUndefined end.

(** [row.k] inside [forEach]: a row of the driver is an object. *)
Definition field (row : value) (k : string) : value :=
  match row with VObj fields => lookup_field k fields | _ => VUndefined end.

(** [getEmailsByPostId]; the [catch] logs and rethrows. *)
Definition getEmailsByPostId (postId : value) : M (list UserData) :=
  try_catch
    (connection <- getConnection ;;
     rows <- connection_execute EMAILS_QUERY postId ;;
     let users :=
       map (fun row => {| email := field row "email";
                          name := field row "name";
                          uuid := field row "member_uuid" |}) rows in
     (connection_end connection ;;;
      ret users))
    (fun error => throw error).

(** [getNewsletterNameByPostId]; the [catch] logs and rethrows. *)
Definition getNewsletterNameByPostId (postId : value) : M value :=
  try_catch
    (connection <- getConnection ;;
     rows <- connection_execute NEWSLETTER_QUERY postId ;;
     name <- lift (get_prop (index rows 0) "name") ;;
     newsletter_uuid <- lift (get_prop (index rows 0) "newsletter_uuid") ;;
     ret (VObj [("name", name); ("newsletter_uuid", newsletter_uuid)]))
    (fun error => throw error).

End Mysql.

(** ** The Postmark batch sender *)

Definition BATCH_SIZE : nat := 500.

(** [Math.ceil(n / d)] on array lengths: the quotient of two integers below
    2^32 is rounded to a double that lies on the same side of every integer,
    so the result is the integer ceiling. *)
Definition ceil_div (n d : nat) : nat :=
  (n / d + (if n mod d =? 0 then 0 else 1))%nat.

(** [l.slice(start, stop)] for [0 <= start <= stop]. *)
Definition slice {A} (start stop : nat) (l : list A) : list A :=
  take (stop - start) (drop start l).

(** The slices taken by the [for] loop of [send], in order. *)
Definition batches_of {A} (userData : list A) : list (list A) :=
  map (fun i => slice (i * BATCH_SIZE) ((i + 1) * BATCH_SIZE) userData)
      (seq 0 (ceil_div (length userData) BATCH_SIZE)).

Fixpoint for_each {A} (l : list A) (body : A -> M unit) : M unit :=
  match l with
  | [] => ret tt
  | x :: rest => body x ;;; for_each rest body
  end.

Fixpoint mapM {A B} (f : A -> M B) (l : list A) : M (list B) :=
  match l with
  | [] => ret []
  | x :: rest => y <- f x ;; ys <- mapM f rest ;; ret (y :: ys)
  end.

(** [let a: string[] = []] *)
Definition new_array : M nat :=
  fun w => (Return (next_loc w),
            {| CONNECTION_ATTEMPTS := CONNECTION_ATTEMPTS w;
               connect_calls := connect_calls w;
               open_connections := open_connections w;
               slept := slept w;
               heap := <[next_loc w := []]> (heap w);
               next_loc := S (next_loc w);
               microtasks := microtasks w; submitted := submitted w |}).

(** [a.push(s)] *)
Definition push (a : nat) (s : string) : M unit :=
  fun w => (Return tt,
            {| CONNECTION_ATTEMPTS := CONNECTION_ATTEMPTS w;
               connect_calls := connect_calls w;
               open_connections := open_connections w;
               slept := slept w;
               heap := alter (fun l : list string => (l ++ [s])%list) a (heap w);
               next_loc := next_loc w;
               microtasks := microtasks w; submitted := submitted w |}).

(** The contents of the array [a] now. *)
Definition read_array (a : nat) : M (list string) :=
  fun w => (Return (default [] (heap w !! a)), w).

(** The callback given to [.then]: it runs when the promise is fulfilled. *)
Definition then_callback (failedEmails : nat) (response : list BatchResponse.t) : M unit :=
  for_each response (fun result =>
    if negb (String.eqb (BatchResponse.Message result) "OK")
       || negb (BatchResponse.ErrorCode result =? 0)%Z
    then push failedEmails (BatchResponse.To result)
    else ret tt).

Definition run_reaction (r : Reaction) : M unit :=
  match settlement r with
  | Fulfilled response => then_callback (target r) response
  | Rejected => ret tt
  end.

(** The event loop runs the pending reactions once the running code has
    returned; the reactions of [send] enqueue nothing. *)
Definition run_microtasks : M unit :=
  fun w =>
    for_each (microtasks w) run_reaction
      {| CONNECTION_ATTEMPTS := CONNECTION_ATTEMPTS w;
         connect_calls := connect_calls w;
         open_connections := open_connections w;
         slept := slept w;
         heap := heap w; next_loc := next_loc w;
         microtasks := []; submitted := submitted w |}.

Section Postmark.
Variable E : Env.

(** [pmClient.sendEmailBatchWithTemplates(emailBatch).then(callback)]:
    the request is made and the callback is left pending. *)
Definition submit (emailBatch : list Email) (failedEmails : nat) : M unit :=
  fun w => (Return tt,
            {| CONNECTION_ATTEMPTS := CONNECTION_ATTEMPTS w;
               connect_calls := connect_calls w;
               open_connections := open_connections w;
               slept := slept w;
               heap := heap w; next_loc := next_loc w;
               microtasks := microtasks w ++
                 [{| target := failedEmails;
                     settlement := sendEmailBatchWithTemplates E emailBatch |}];
               submitted := submitted w ++ [emailBatch] |}).

(** The arrow function given to [batch.map]. *)
Definition email_of (newsletter : value) (user : UserData) : M Email :=
  let emailFrom := of_env (MAIL_FROM E) in
  let templateId := of_env (MAIL_TEMPLATE_ID E) in
  header_image <- lift (get_prop newsletter "header_image") ;;
  created_at <- lift (get_prop newsletter "created_at") ;;
  newsletter_uuid <- lift (get_prop newsletter "uuid") ;;
  newsletterName <- lift (get_prop newsletter "name") ;;
  title <- lift (get_prop newsletter "title") ;;
  excerpt <- lift (get_prop newsletter "excerpt") ;;
  html <- lift (get_prop newsletter "html") ;;
  feature_image <- lift (get_prop newsletter "feature_image") ;;
  author <- lift (get_prop newsletter "author") ;;
  authorName <- lift (get_prop author "name") ;;
  author' <- lift (get_prop newsletter "author") ;;
  authorImage <- lift (get_prop author' "image") ;;
  postUrl <- lift (get_prop newsletter "url") ;;
  ret {| From := emailFrom;
         To := email user;
         TemplateId := templateId;
         TemplateModel :=
           {| username := name user;
              emailFrom := js_or emailFrom (VStr "");
              website_url := js_or (of_env (GHOST_URL E)) (VStr "https://example.com");
              header_image := header_image;
              user_email := email user;
              user_uuid := uuid user;
              created_at := created_at;
              newsletter_uuid := newsletter_uuid;
              newsletterName := newsletterName;
              title := title;
              excerpt := excerpt;
              html := html;
              feature_image := feature_image;
              authorName := authorName;
              authorImage := authorImage;
              postUrl := postUrl |} |}.

(** [PostmarkBatchEmailSender.send]; the constant [postUrl] of the source
    reads [newsletter.postSlug] and is not used afterwards.  The value
    returned is the reference of the array [failedEmails]. *)
Definition send (userData : list UserData) (newsletter : value) : M nat :=
  failedEmails <- new_array ;;
  _ <- lift (get_prop newsletter "postSlug") ;;
  let batches := ceil_div (length userData) BATCH_SIZE in
  (for_each (seq 0 batches) (fun i =>
     let batch := slice (i * BATCH_SIZE) ((i + 1) * BATCH_SIZE) userData in
     emailBatch <- mapM (email_of newsletter) batch ;;
     submit emailBatch failedEmails) ;;;
   ret failedEmails).

End Postmark.

(** ** src/index.ts: the handler of [POST /hooks] *)

Fixpoint get_path (v : value) (path : list string) : Outcome value :=
  match path with
  | [] => Return v
  | k :: rest => match get_prop v k with
                 | Return v' => get_path v' rest
                 | Throw e => Throw e
                 end
  end.

(** [postData.post.current.k] *)
Definition current (postData : value) (k : string) : M value :=
  lift (get_path postData ["post"; "current"; k]).

(** [res.sendStatus(code)]: the status is the result of the handler. *)
Definition sendStatus (code : nat) : M nat := ret code.

Section Server.
Variable E : Env.
(** [batchEmailSender]: any implementation of the interface
    [BatchEmailSender]; [send] returns an array of strings. *)
Variable batchEmailSender : list UserData -> value -> M nat.

(** The object literal [newsletterData]. *)
Definition newsletterData_of (postData newsletterName : value) : M value :=
  title <- current postData "title" ;;
  excerpt <- current postData "excerpt" ;;
  html <- current postData "html" ;;
  url <- current postData "url" ;;
  feature_image <- current postData "feature_image" ;;
  primary_author <- current postData "primary_author" ;;
  author_name <- lift (get_prop primary_author "name") ;;
  primary_author' <- current postData "primary_author" ;;
  author_image <- lift (get_prop primary_author' "profile_image") ;;
  postSlug <- current postData "slug" ;;
  ret (VObj [("name", newsletterName);
             ("title", title);
             ("excerpt", excerpt);
             ("html", html);
             ("url", url);
             ("feature_image", feature_image);
             ("author", VObj [("name", author_name); ("image", author_image)]);
             ("postSlug", postSlug)]).

(** The callback of [app.post('/hooks', ...)].  A throw outside the [try]
    leaves the request without a response. *)
Definition hooks (postData : value) : M nat :=
  _ <- current postData "id" ;;
  postId <- current postData "id" ;;
  try_catch
    (usersToEmail <- getEmailsByPostId E postId ;;
     newsletterName <- getNewsletterNameByPostId E postId ;;
     newsletterData <- newsletterData_of postData newsletterName ;;
     failureEmails <- batchEmailSender usersToEmail newsletterData ;;
     failed <- read_array failureEmails ;;
     if (0 <? length failed)%nat
     then throw (Error ("Failed emails list: " ++ String.concat "," failed)%string)
     else sendStatus 200)
    (fun error => sendStatus 500).

End Server.

(** The server as configured with the Postmark sender: one request, then
    the reactions left pending by it. *)
Definition serve (E : Env) (postData : value) : M nat :=
  status <- hooks E (send E) postData ;;
  (run_microtasks ;;;
   ret status).

(** The recipient a message was built for, read back from the message. *)
Definition recipient_of (m : Email) : UserData :=
  {| email := To m;
     name := username (TemplateModel m);
     uuid := user_uuid (TemplateModel m) |}.

(** [newsletter.author] can be read and is an object or a primitive, so that
    the arrow function of [batch.map] does not throw. *)
Definition has_author (newsletter : value) : bool :=
  match get_prop newsletter "author" with
  | Return author => negb (is_nullish author)
  | Throw _ => false
  end.

(** The world after the batches [bs] were given to the provider with their
    callbacks closed over the array [a]. *)
Definition with_submissions (E : Env) (a : nat) (bs : list (list Email)) (w : World) : World :=
  {| CONNECTION_ATTEMPTS := CONNECTION_ATTEMPTS w;
     connect_calls := connect_calls w;
     open_connections := open_connections w;
     slept := slept w;
     heap := heap w; next_loc := next_loc w;
     microtasks := microtasks w ++
       map (fun b => {| target := a; settlement := sendEmailBatchWithTemplates E b |}) bs;
     submitted := submitted w ++ bs |}.

(** The sum of the delays slept, in milliseconds. *)
Definition total_sleep (delays : list Z) : Z := foldr Z.add 0%Z delays.

(** ** Concrete environments and requests *)

(** A store whose first [n] connections fail and whose later ones succeed;
    no query answers and the provider rejects. *)
Definition connects_from (n : nat) : Env :=
  {| createConnection := fun i => n <=? i;
     execute := fun _ _ => None;
     sendEmailBatchWithTemplates := fun _ => Rejected;
     MAIL_FROM := None; MAIL_TEMPLATE_ID := None; GHOST_URL := None |}.

(** A store that never accepts a connection. *)
Definition never_connects : Env :=
  {| createConnection := fun _ => false;
     execute := fun _ _ => None;
     sendEmailBatchWithTemplates := fun _ => Rejected;
     MAIL_FROM := None; MAIL_TEMPLATE_ID := None; GHOST_URL := None |}.

(** The calls the process makes on its world: the start-up connection
    check, the two resolvers, a request served with the Postmark sender,
    and a turn of the event loop. *)
Inductive Call : Type :=
| CallConnect
| CallEmails (postId : value)
| CallNewsletter (postId : value)
| CallHooks (postData : value)
| CallReactions.

Definition run_call (E : Env) (c : Call) (w : World) : World :=
  match c with
  | CallConnect => (attemptToConnectMySql E w).2
  | CallEmails postId => (getEmailsByPostId E postId w).2
  | CallNewsletter postId => (getNewsletterNameByPostId E postId w).2
  | CallHooks postData => (hooks E (send E) postData w).2
  | CallReactions => (run_microtasks w).2
  end.

Definition run_calls (E : Env) (cs : list Call) (w : World) : World :=
  foldl (fun w c => run_call E c w) w cs.

(** The part of the world the retry loop works on. *)
Definition retry_state (w : World) : nat * list Z :=
  (CONNECTION_ATTEMPTS w, slept w).

(** [m] leaves the part [f] of the world as it was. *)
Definition keeps {A B} (f : World → B) (m : M A) : Prop :=
  ∀ w, f (m w).2 = f w.

(** The part of the world the sender works on. *)
Definition outbox (w : World) :
    gmap nat (list string) * nat * list Reaction * list (list Email) :=
  (heap w, next_loc w, microtasks w, submitted w).

(** An error the program or the store raises, as opposed to the TypeError
    of reading a property of [undefined]. *)
Definition defined_error (e : error) : bool :=
  match e with
  | TypeError _ => false
  | ConnectError | ExecuteError | Error _ => true
  end.

(** The body of a webhook for post 42, every field a string. *)
Definition example_post : value :=
  VObj [("post", VObj [("current", VObj [
    ("id", VStr "42"); ("slug", VStr "hello"); ("url", VStr "https://blog.example.com/hello");
    ("title", VStr "Hello"); ("excerpt", VStr "A first post"); ("html", VStr "<p>Hello</p>");
    ("feature_image", VStr "https://blog.example.com/hello.png");
    ("primary_author", VObj [("name", VStr "Ann"); ("profile_image", VStr "https://blog.example.com/ann.png");
                             ("url", VStr "https://blog.example.com/ann")])])])].

(** A provider that accepts every message but those to bad@example.com. *)
Definition example_reply (m : Email) : BatchResponse.t :=
  match To m with
  | VStr "bad@example.com" =>
      BatchResponse.mk 406 "Inactive recipient" "" "" "bad@example.com"
  | VStr address => BatchResponse.mk 0 "OK" "message-id" "2024-01-01" address
  | _ => BatchResponse.mk 300 "Invalid email request" "" "" ""
  end.

(** A store that accepts connections and knows one subscriber of the
    publication News, whose address the provider refuses. *)
Definition example_env : Env :=
  {| createConnection := fun _ => true;
     execute := fun q _ =>
       match q with
       | EMAILS_QUERY => Some [[VStr "bad@example.com"; VStr "member-1"; VStr "Bob"]]
       | NEWSLETTER_QUERY => Some [[VStr "News"; VStr "newsletter-1"]]
       end;
     sendEmailBatchWithTemplates := fun batch => Fulfilled (map example_reply batch);
     MAIL_FROM := Some "news@example.com";
     MAIL_TEMPLATE_ID := Some "1234";
     GHOST_URL := Some "https://blog.example.com" |}.

(** The same store without a publication row for the post. *)
Definition no_publication_env : Env :=
  {| createConnection := fun _ => true;
     execute := fun q _ =>
       match q with
       | EMAILS_QUERY => Some [[VStr "bad@example.com"; VStr "member-1"; VStr "Bob"]]
       | NEWSLETTER_QUERY => Some []
       end;
     sendEmailBatchWithTemplates := fun batch => Fulfilled (map example_reply batch);
     MAIL_FROM := Some "news@example.com";
     MAIL_TEMPLATE_ID := Some "1234";
     GHOST_URL := Some "https://blog.example.com" |}.

(** A store that accepts connections and rejects every query. *)
Definition rejecting_env : Env :=
  {| createConnection := fun _ => true;
     execute := fun _ _ => None;
     sendEmailBatchWithTemplates := fun _ => Rejected;
     MAIL_FROM := None; MAIL_TEMPLATE_ID := None; GHOST_URL := None |}.

(** A sender that waits for the provider before it returns: it returns an
    array that already holds one failed address. *)
Definition blocking_sender (userData : list UserData) (newsletter : value) : M nat :=
  failedEmails <- new_array ;;
  (push failedEmails "bad@example.com" ;;;
   ret failedEmails).

(** The subscriber and the notification content of the request
    [example_post] in [example_env], as the handler passes them to [send]. *)
Definition example_users : list UserData :=
  [{| email := VStr "bad@example.com"; name := VStr "Bob"; uuid := VStr "member-1" |}].

Definition example_content : value :=
  VObj [("name", VObj [("name", VStr "News"); ("newsletter_uuid", VUndefined)]);
        ("title", VStr "Hello");
        ("excerpt", VStr "A first post");
        ("html", VStr "<p>Hello</p>");
        ("url", VStr "https://blog.example.com/hello");
        ("feature_image", VStr "https://blog.example.com/hello.png");
        ("author", VObj [("name", VStr "Ann");
                         ("image", VStr "https://blog.example.com/ann.png")]);
        ("postSlug", VStr "hello")].

(** The message [send] builds for that subscriber. *)
Definition example_email : Email :=
  {| From := VStr "news@example.com";
     To := VStr "bad@example.com";
     TemplateId := VStr "1234";
     TemplateModel :=
       {| username := VStr "Bob";
          emailFrom := VStr "news@example.com";
          website_url := VStr "https://blog.example.com";
          header_image := VUndefined;
          user_email := VStr "bad@example.com";
          user_uuid := VStr "member-1";
          created_at := VUndefined;
          newsletter_uuid := VUndefined;
          newsletterName := VObj [("name", VStr "News"); ("newsletter_uuid", VUndefined)];
          title := VStr "Hello";
          excerpt := VStr "A first post";
          html := VStr "<p>Hello</p>";
          feature_image := VStr "https://blog.example.com/hello.png";
          authorName := VStr "Ann";
          authorImage := VStr "https://blog.example.com/ann.png";
          postUrl := VStr "https://blog.example.com/hello" |} |}.

(** The results the callback of [send] keeps. *)
Definition is_failure (result : BatchResponse.t) : bool :=
  negb (String.eqb (BatchResponse.Message result) "OK")
  || negb (BatchResponse.ErrorCode result =? 0)%Z.


(** The world but for its arrays. *)
Definition around_heap (w : World) :
    nat * nat * gset nat * list Z * nat * list Reaction * list (list Email) :=
  (CONNECTION_ATTEMPTS w, connect_calls w, open_connections w, slept w,
   next_loc w, microtasks w, submitted w).

(** The part of the world the driver of the store works on. *)
Definition connections (w : World) : nat * gset nat :=
  (connect_calls w, open_connections w).

(** ** src/index.ts: [setup] *)

(** What [setup] leaves behind: the server listening on its port, with the
    sender the handler of [/hooks] closes over, or no server. *)
Inductive Startup : Type :=
| Listening (batchEmailSender : list UserData → value → M nat)
| NotStarted.

Section Setup.
Variable E : Env.
(** [process.env.EMAIL_PROVIDER], and
    [BatchEmailSenderFactory.createBatchEmailSender], whose module is not
    among the sources: any function from the name of the provider that
    returns a sender or throws. *)
Variable EMAIL_PROVIDER : option string.
Variable createBatchEmailSender : string → M (list UserData → value → M nat).

(** [setup]: the locals [isServerConfigValid] and [batchEmailSender] are
    the pair the [try] block returns; the [catch] resets the first. *)
Definition setup : M Startup :=
  configured <-
    try_catch
      (connected <- attemptToConnectMySql E ;;
       let isServerConfigValid := if connected : bool then true else false in
       if negb (truthy (of_env EMAIL_PROVIDER))
       then throw (Error "EMAIL_PROVIDER environment variable not set")
       else
         (batchEmailSender <- createBatchEmailSender (default "" EMAIL_PROVIDER) ;;
          ret (isServerConfigValid, Some batchEmailSender)))
      (fun error => ret (false, None)) ;;
  match configured with
  | (true, Some batchEmailSender) => ret (Listening batchEmailSender)
  | _ => ret NotStarted
  end.
End Setup.

(** * Properties *)

(** ** The partition into batches *)

Section Batches.
Context {A : Type}.
Implicit Types l : list A.

(** [ceil_div n d] is the least [k] with [n <= k * d]. *)
Lemma ceil_div_upper n d : (0 < d)%nat → (n ≤ ceil_div n d * d)%nat.
Proof.
  intros Hd. unfold ceil_div.
  pose proof (Nat.div_mod_eq n d) as Hdm.
  pose proof (Nat.mod_upper_bound n d ltac:(lia)) as Hlt.
  destruct (Nat.eqb_spec (n mod d) 0); nia.
Qed.

Lemma ceil_div_least n d k : (0 < d)%nat → (n ≤ k * d)%nat → (ceil_div n d ≤ k)%nat.
Proof.
  intros Hd Hk. unfold ceil_div.
  pose proof (Nat.div_mod_eq n d) as Hdm.
  pose proof (Nat.mod_upper_bound n d ltac:(lia)) as Hlt.
  destruct (Nat.eqb_spec (n mod d) 0); nia.
Qed.

Lemma slices_concat l b k :
  concat (map (fun i => slice (i * b) ((i + 1) * b) l) (seq 0 k)) = take (k * b) l.
Proof.
  induction k as [|k IH]; [by rewrite take_0|].
  rewrite seq_S, map_app, concat_app, IH. simpl. rewrite app_nil_r.
  unfold slice. replace ((k + 1) * b - k * b)%nat with b by lia.
  rewrite take_take_drop. f_equal. lia.
Qed.

Lemma batches_of_concat l : concat (batches_of l) = l.
Proof.
  unfold batches_of. rewrite slices_concat. apply take_ge.
  apply ceil_div_upper. unfold BATCH_SIZE. lia.
Qed.

Lemma batches_of_length l :
  length (batches_of l) = ceil_div (length l) BATCH_SIZE.
Proof. unfold batches_of. by rewrite length_map, length_seq. Qed.

Lemma batches_of_lookup l i :
  (i < ceil_div (length l) BATCH_SIZE)%nat →
  batches_of l !! i = Some (slice (i * BATCH_SIZE) ((i + 1) * BATCH_SIZE) l).
Proof.
  intros Hi. unfold batches_of. rewrite list_lookup_fmap.
  by rewrite lookup_seq_lt.
Qed.

Lemma slice_length_le l i b : (length (slice (i * b) ((i + 1) * b) l) ≤ b)%nat.
Proof. unfold slice. rewrite length_take. lia. Qed.

Lemma batches_of_bounded l :
  Forall (fun batch => (length batch ≤ BATCH_SIZE)%nat) (batches_of l).
Proof.
  unfold batches_of. apply Forall_fmap, Forall_forall. intros i _. simpl.
  apply slice_length_le.
Qed.
End Batches.

(** ** What [send] does to the world *)

Section SendSpec.
Variable E : Env.

Lemma mapM_pure {A B} (f : A → M B) (g : A → B) (l : list A) w :
  (∀ x w0, f x w0 = (Return (g x), w0)) →
  mapM f l w = (Return (map g l), w).
Proof.
  intros Hf. induction l as [|x l IH]; [done|].
  simpl. unfold bind. by rewrite Hf, IH.
Qed.

Lemma email_of_pure newsletter :
  has_author newsletter = true →
  ∃ g : UserData → Email,
    (∀ user w, email_of E newsletter user w = (Return (g user), w)) ∧
    (∀ user, recipient_of (g user) = user).
Proof.
  unfold has_author. intros Ha.
  destruct newsletter as [| | | | |fields]; try discriminate. simpl in Ha.
  destruct (lookup_field "author" fields) as [| | | | |au] eqn:Hau;
    try discriminate;
    (eexists; split;
     [intros user w; unfold email_of, bind, lift, ret; simpl;
      rewrite ?Hau; simpl; reflexivity
     |intros [? ? ?]; reflexivity]).
Qed.

Lemma with_submissions_nil a w : with_submissions E a [] w = w.
Proof. destruct w. unfold with_submissions. simpl. by rewrite !app_nil_r. Qed.

Lemma with_submissions_cons a b bs w :
  with_submissions E a (b :: bs) w = with_submissions E a bs (submit E b a w).2.
Proof.
  unfold with_submissions, submit. simpl. f_equal.
  - by rewrite <- app_assoc.
  - by rewrite <- app_assoc.
Qed.

Lemma for_each_submit {A} (f : A → M (list Email)) (g : A → list Email) a (l : list A) w :
  (∀ x w0, f x w0 = (Return (g x), w0)) →
  for_each l (fun x => emailBatch <- f x ;; submit E emailBatch a) w
  = (Return tt, with_submissions E a (map g l) w).
Proof.
  intros Hf. revert w. induction l as [|x l IH]; intros w.
  - simpl. by rewrite with_submissions_nil.
  - simpl. rewrite with_submissions_cons. unfold bind at 1 2. rewrite Hf.
    unfold submit at 1. apply IH.
Qed.

(** [send] returns the reference of a fresh empty array, and leaves one
    pending callback per batch. *)
Lemma send_spec userData newsletter w :
  has_author newsletter = true →
  ∃ g : UserData → Email,
    (∀ user, recipient_of (g user) = user) ∧
    send E userData newsletter w
    = (Return (next_loc w),
       with_submissions E (next_loc w) (map (map g) (batches_of userData))
         (new_array w).2).
Proof.
  intros Ha. destruct (email_of_pure newsletter Ha) as (g & Hg & Hr).
  exists g. split; [exact Hr|].
  unfold send. unfold bind at 1. simpl.
  assert (∃ v, get_prop newsletter "postSlug" = Return v) as [v Hv].
  { unfold has_author in Ha. destruct newsletter; try discriminate; simpl; eauto. }
  unfold bind at 1. unfold lift at 1. rewrite Hv.
  unfold bind at 1.
  rewrite (for_each_submit _ (fun i => map g (slice (i * BATCH_SIZE) ((i + 1) * BATCH_SIZE) userData))).
  - unfold ret. unfold batches_of. by rewrite <- list_fmap_compose.
  - intros i w0. by apply mapM_pure.
Qed.
End SendSpec.

(** ** C2: the batches partition the recipients *)

(** C2.  For every recipient list of length n, [send] gives the provider
    exactly ceil(n / 500) batches (the least k with n <= 500 k), each one
    built from a contiguous slice of at most 500 recipients, and the
    recipients of the batches, concatenated in submission order, are the
    input list: none omitted, duplicated or reordered.  The notification
    content is one whose [author] can be read, as the handler builds it. *)
Theorem send_partitions_recipients (E : Env) (userData : list UserData)
    (newsletter : value) (w : World) :
  has_author newsletter = true →
  ∃ (failedEmails : nat) (w' : World) (bs : list (list Email)),
    send E userData newsletter w = (Return failedEmails, w') ∧
    submitted w' = submitted w ++ bs ∧
    length bs = ceil_div (length userData) 500 ∧
    (length userData ≤ length bs * 500)%nat ∧
    (∀ k, (length userData ≤ k * 500)%nat → (length bs ≤ k)%nat) ∧
    (∀ i, (i < length bs)%nat →
       map recipient_of <$> bs !! i
       = Some (slice (i * 500) ((i + 1) * 500) userData)) ∧
    Forall (fun b => (length b ≤ 500)%nat) bs ∧
    concat (map (map recipient_of) bs) = userData.
Proof.
  intros Ha. destruct (send_spec E userData newsletter w Ha) as (g & Hr & Hs).
  assert (Hid : ∀ l : list UserData, map recipient_of (map g l) = l).
  { intros l. rewrite <- list_fmap_compose. rewrite <- (list_fmap_id l) at 2.
    apply list_fmap_ext. intros _ u _. apply Hr. }
  assert (Hlen : length (map (map g) (batches_of userData))
                 = ceil_div (length userData) 500).
  { by rewrite length_map, batches_of_length. }
  eexists _, _, (map (map g) (batches_of userData)).
  split; [exact Hs|]. split; [reflexivity|]. split; [exact Hlen|].
  rewrite Hlen. split; [by apply ceil_div_upper; lia|].
  split; [by intros k; apply ceil_div_least; lia|].
  split; [|split].
  - intros i Hi. rewrite list_lookup_fmap, batches_of_lookup by exact Hi.
    simpl. by rewrite Hid.
  - apply Forall_fmap. eapply Forall_impl; [apply batches_of_bounded|].
    intros b Hb. simpl. by rewrite length_map.
  - rewrite <- list_fmap_compose.
    rewrite <- (batches_of_concat userData) at 2. f_equal.
    rewrite <- (list_fmap_id (batches_of userData)) at 2.
    apply list_fmap_ext. intros _ l _. apply Hid.
Qed.

Lemma send_partitions_recipients_witness :
  has_author example_content = true ∧
  ∃ (failedEmails : nat) (w' : World) (bs : list (list Email)),
    send example_env example_users example_content initial_world
    = (Return failedEmails, w') ∧
    submitted w' = submitted initial_world ++ bs ∧
    length bs = ceil_div (length example_users) 500 ∧
    (length example_users ≤ length bs * 500)%nat ∧
    (∀ k, (length example_users ≤ k * 500)%nat → (length bs ≤ k)%nat) ∧
    (∀ i, (i < length bs)%nat →
       map recipient_of <$> bs !! i
       = Some (slice (i * 500) ((i + 1) * 500) example_users)) ∧
    Forall (fun b => (length b ≤ 500)%nat) bs ∧
    concat (map (map recipient_of) bs) = example_users.
Proof.
  split; [reflexivity|].
  apply (send_partitions_recipients example_env example_users example_content
           initial_world).
  reflexivity.
Defined.

(** 1200 recipients go out in three batches of 500, 500 and 200. *)
Example batches_of_1200 :
  map length (batches_of (seq 0 1200)) = [500; 500; 200] ∧
  ceil_div 1200 BATCH_SIZE = 3 ∧ ceil_div 1000 BATCH_SIZE = 2 ∧
  ceil_div 0 BATCH_SIZE = 0 ∧ ceil_div 1 BATCH_SIZE = 1.
Proof. repeat split; vm_compute; reflexivity. Qed.

(** ** The connection retry loop *)

Section Retry.
Variable E : Env.

(** One turn of the [while] loop. *)
Lemma attemptToConnectMySql_turn w :
  attemptToConnectMySql E w =
  if CONNECTION_ATTEMPTS w <=? MAX_CXN_RETRIES
  then match getConnection E w with
       | (Return _, w1) => (Return true, w1)
       | (Throw _, w1) =>
           attemptToConnectMySql E
             (increment_attempts
                (sleep (getRetryDelay (CONNECTION_ATTEMPTS w1)) w1).2).2
       end
  else (Throw (Error "Failed to connect to the database after multiple attempts."), w).
Proof.
  funelim (attemptToConnectMySql E w).
  - by rewrite Hgt.
  - by rewrite Hle, Hok.
  - by rewrite Hle, Hconn.
Qed.

Lemma attempt_exhausted w :
  MAX_CXN_RETRIES < CONNECTION_ATTEMPTS w →
  attemptToConnectMySql E w
  = (Throw (Error "Failed to connect to the database after multiple attempts."), w).
Proof.
  intros H. rewrite attemptToConnectMySql_turn.
  destruct (Nat.leb_spec (CONNECTION_ATTEMPTS w) MAX_CXN_RETRIES); [lia|done].
Qed.

Lemma attempt_connects a c o s h n m b :
  a ≤ MAX_CXN_RETRIES → createConnection E c = true →
  attemptToConnectMySql E (mkWorld a c o s h n m b)
  = (Return true, mkWorld a (S c) ({[c]} ∪ o) s h n m b).
Proof.
  intros Ha Hc. rewrite attemptToConnectMySql_turn. simpl.
  destruct (Nat.leb_spec a MAX_CXN_RETRIES); [|lia].
  unfold getConnection. simpl. by rewrite Hc.
Qed.

Lemma attempt_retries a c o s h n m b :
  a ≤ MAX_CXN_RETRIES → createConnection E c = false →
  attemptToConnectMySql E (mkWorld a c o s h n m b)
  = attemptToConnectMySql E
      (mkWorld (S a) (S c) o (s ++ [getRetryDelay a]) h n m b).
Proof.
  intros Ha Hc. rewrite attemptToConnectMySql_turn. simpl.
  destruct (Nat.leb_spec a MAX_CXN_RETRIES); [|lia].
  unfold getConnection. simpl. by rewrite Hc.
Qed.

(** [getRetryDelay] is the doubling delay clamped at the ceiling. *)
Lemma getRetryDelay_min attempts :
  getRetryDelay attempts = Z.min 60000 (1000 * 2 ^ Z.of_nat attempts).
Proof. unfold getRetryDelay. simpl. destruct (Z.ltb_spec 60000 (1000 * 2 ^ Z.of_nat attempts)); lia. Qed.

(** What one call of the loop does to the counter, to the timers and to
    the number of connections asked for. *)
Lemma attempt_effect w :
  ∃ delays : list Z,
    let r := attemptToConnectMySql E w in
    slept r.2 = slept w ++ delays ∧
    CONNECTION_ATTEMPTS r.2 = CONNECTION_ATTEMPTS w + length delays ∧
    length delays ≤ S MAX_CXN_RETRIES - CONNECTION_ATTEMPTS w ∧
    heap r.2 = heap w ∧ next_loc r.2 = next_loc w ∧
    microtasks r.2 = microtasks w ∧ submitted r.2 = submitted w ∧
    match r.1 with
    | Return _ =>
        connect_calls r.2 = connect_calls w + length delays + 1 ∧
        CONNECTION_ATTEMPTS r.2 ≤ MAX_CXN_RETRIES
    | Throw _ =>
        connect_calls r.2 = connect_calls w + length delays ∧
        MAX_CXN_RETRIES < CONNECTION_ATTEMPTS r.2 ∧
        (CONNECTION_ATTEMPTS w ≤ S MAX_CXN_RETRIES →
         CONNECTION_ATTEMPTS r.2 = S MAX_CXN_RETRIES)
    end.
Proof.
  remember (S MAX_CXN_RETRIES - CONNECTION_ATTEMPTS w) as fuel eqn:Hfuel.
  revert w Hfuel. induction fuel as [fuel IH] using lt_wf_ind. intros w Hfuel.
  destruct (Nat.leb_spec (CONNECTION_ATTEMPTS w) MAX_CXN_RETRIES) as [Hle|Hgt].
  - destruct w as [a c o s h n m b]. simpl in *.
    destruct (createConnection E c) eqn:Hc.
    + exists []. rewrite attempt_connects by done. simpl.
      rewrite app_nil_r. repeat split; lia.
    + rewrite attempt_retries by done.
      destruct (IH (S MAX_CXN_RETRIES - S a) ltac:(lia)
                  (mkWorld (S a) (S c) o (s ++ [getRetryDelay a]) h n m b) eq_refl)
        as (delays & Hs & Ha & Hd & Hh & Hn & Hm & Hb & Hr).
      simpl in *. exists (getRetryDelay a :: delays).
      rewrite Hs, Ha, Hh, Hn, Hm, Hb, <- app_assoc. simpl.
      repeat split; try lia.
      destruct (attemptToConnectMySql E _).1; simpl in *; lia.
  - exists []. rewrite attempt_exhausted by done. simpl.
    rewrite app_nil_r. repeat split; lia.
Qed.
End Retry.

(** ** C3 and C4: the delays of the retry loop *)

(** C3, as stated, fails: in a fresh process whose first three connections
    fail and whose fourth succeeds, the delays slept are not 1s, 2s, 4s. *)
Lemma connect_delays_are_not_1_2_4 :
  createConnection (connects_from 3) 0 = false ∧
  createConnection (connects_from 3) 1 = false ∧
  createConnection (connects_from 3) 2 = false ∧
  createConnection (connects_from 3) 3 = true ∧
  (attemptToConnectMySql (connects_from 3) initial_world).1 = Return true ∧
  slept (attemptToConnectMySql (connects_from 3) initial_world).2
  ≠ [1000; 2000; 4000]%Z.
Proof. repeat split; try reflexivity. vm_compute. discriminate. Qed.

(** C3, amended.  When the counter is 1 (a fresh process) and the connection
    fails on the first three attempts and succeeds on the fourth,
    [attemptToConnectMySql] returns true on the fourth attempt, and the
    delays slept between the attempts are 2s, 4s, 8s: the delay after
    attempt number a = 1, 2, 3 is min(60s, 1s * 2^a). *)
Theorem connect_succeeds_on_fourth_attempt (E : Env) (w : World) :
  CONNECTION_ATTEMPTS w = 1 →
  createConnection E (connect_calls w) = false →
  createConnection E (connect_calls w + 1) = false →
  createConnection E (connect_calls w + 2) = false →
  createConnection E (connect_calls w + 3) = true →
  (attemptToConnectMySql E w).1 = Return true ∧
  connect_calls (attemptToConnectMySql E w).2 = connect_calls w + 4 ∧
  slept (attemptToConnectMySql E w).2 = slept w ++ [2000; 4000; 8000]%Z ∧
  [2000; 4000; 8000]%Z
  = map (fun attempt => Z.min 60000 (1000 * 2 ^ Z.of_nat attempt)) [1; 2; 3].
Proof.
  destruct w as [a c o s h n m b]. simpl. intros -> H0 H1 H2 H3.
  replace (c + 1) with (S c) in H1 by lia.
  replace (c + 2) with (S (S c)) in H2 by lia.
  replace (c + 3) with (S (S (S c))) in H3 by lia.
  rewrite attempt_retries by (done || unfold MAX_CXN_RETRIES; lia).
  rewrite attempt_retries by (done || unfold MAX_CXN_RETRIES; lia).
  rewrite attempt_retries by (done || unfold MAX_CXN_RETRIES; lia).
  rewrite attempt_connects by (done || unfold MAX_CXN_RETRIES; lia).
  simpl. rewrite <- !app_assoc. repeat split. lia.
Qed.

Lemma connect_succeeds_on_fourth_attempt_witness :
  CONNECTION_ATTEMPTS initial_world = 1 ∧
  createConnection (connects_from 3) (connect_calls initial_world) = false ∧
  createConnection (connects_from 3) (connect_calls initial_world + 1) = false ∧
  createConnection (connects_from 3) (connect_calls initial_world + 2) = false ∧
  createConnection (connects_from 3) (connect_calls initial_world + 3) = true ∧
  (attemptToConnectMySql (connects_from 3) initial_world).1 = Return true ∧
  connect_calls (attemptToConnectMySql (connects_from 3) initial_world).2
  = connect_calls initial_world + 4 ∧
  slept (attemptToConnectMySql (connects_from 3) initial_world).2
  = slept initial_world ++ [2000; 4000; 8000]%Z ∧
  [2000; 4000; 8000]%Z
  = map (fun attempt => Z.min 60000 (1000 * 2 ^ Z.of_nat attempt)) [1; 2; 3].
Proof.
  do 5 (split; [reflexivity|]).
  apply (connect_succeeds_on_fourth_attempt (connects_from 3) initial_world);
    reflexivity.
Defined.

(** C4, as stated, fails: in a fresh process whose connection always fails,
    the time slept in total is not 63 seconds. *)
Lemma connect_total_sleep_is_not_63s :
  (attemptToConnectMySql never_connects initial_world).1
  = Throw (Error "Failed to connect to the database after multiple attempts.") ∧
  connect_calls (attemptToConnectMySql never_connects initial_world).2 = 6 ∧
  total_sleep (slept (attemptToConnectMySql never_connects initial_world).2)
  ≠ 63000%Z.
Proof. repeat split; try reflexivity. vm_compute. discriminate. Qed.

(** C4, amended.  When the counter is 1 (a fresh process) and the
    connection fails on every attempt, [attemptToConnectMySql] makes exactly
    6 attempts and then throws its terminal error; it sleeps after each of
    the 6 failures, for min(60s, 1s * 2^a) after attempt a, that is for
    2 + 4 + 8 + 16 + 32 + 60 = 122 seconds in total. *)
Theorem connect_exhausts_after_six_attempts (E : Env) (w : World) :
  CONNECTION_ATTEMPTS w = 1 →
  (∀ i, createConnection E i = false) →
  (attemptToConnectMySql E w).1
  = Throw (Error "Failed to connect to the database after multiple attempts.") ∧
  connect_calls (attemptToConnectMySql E w).2 = connect_calls w + 6 ∧
  slept (attemptToConnectMySql E w).2
  = slept w ++ [2000; 4000; 8000; 16000; 32000; 60000]%Z ∧
  [2000; 4000; 8000; 16000; 32000; 60000]%Z
  = map (fun attempt => Z.min 60000 (1000 * 2 ^ Z.of_nat attempt)) [1; 2; 3; 4; 5; 6] ∧
  total_sleep [2000; 4000; 8000; 16000; 32000; 60000]%Z = 122000%Z.
Proof.
  destruct w as [a c o s h n m b]. simpl. intros -> Hfail.
  do 6 (rewrite attempt_retries by (apply Hfail || unfold MAX_CXN_RETRIES; lia)).
  rewrite attempt_exhausted by (simpl; unfold MAX_CXN_RETRIES; lia).
  simpl. rewrite <- !app_assoc. repeat split. lia.
Qed.

Lemma connect_exhausts_after_six_attempts_witness :
  CONNECTION_ATTEMPTS initial_world = 1 ∧
  (∀ i, createConnection never_connects i = false) ∧
  (attemptToConnectMySql never_connects initial_world).1
  = Throw (Error "Failed to connect to the database after multiple attempts.") ∧
  connect_calls (attemptToConnectMySql never_connects initial_world).2
  = connect_calls initial_world + 6 ∧
  slept (attemptToConnectMySql never_connects initial_world).2
  = slept initial_world ++ [2000; 4000; 8000; 16000; 32000; 60000]%Z ∧
  [2000; 4000; 8000; 16000; 32000; 60000]%Z
  = map (fun attempt => Z.min 60000 (1000 * 2 ^ Z.of_nat attempt)) [1; 2; 3; 4; 5; 6] ∧
  total_sleep [2000; 4000; 8000; 16000; 32000; 60000]%Z = 122000%Z.
Proof.
  split; [reflexivity|]. split; [intros i; reflexivity|].
  apply (connect_exhausts_after_six_attempts never_connects initial_world);
    [reflexivity | intros i; reflexivity].
Defined.

(** ** Parts of the world a computation leaves alone *)

Create HintDb keeps.

Section Keeps.
Context {B : Type} (f : World → B).

Lemma keeps_ret {A} (a : A) : keeps f (ret a).
Proof. by intros w. Qed.

Lemma keeps_throw {A} e : keeps f (@throw A e).
Proof. by intros w. Qed.

Lemma keeps_lift {A} (o : Outcome A) : keeps f (lift o).
Proof. by intros w. Qed.

Lemma keeps_bind {A C} (m : M A) (k : A → M C) :
  keeps f m → (∀ a, keeps f (k a)) → keeps f (bind m k).
Proof.
  intros Hm Hk w. unfold bind. specialize (Hm w).
  destruct (m w) as [[a|e] w1]; simpl in *; [|done].
  by rewrite Hk.
Qed.

Lemma keeps_try_catch {A} (m : M A) (h : error → M A) :
  keeps f m → (∀ e, keeps f (h e)) → keeps f (try_catch m h).
Proof.
  intros Hm Hh w. unfold try_catch. specialize (Hm w).
  destruct (m w) as [[a|e] w1]; simpl in *; [done|].
  by rewrite Hh.
Qed.

Lemma keeps_for_each {A} (l : list A) (body : A → M unit) :
  (∀ x, keeps f (body x)) → keeps f (for_each l body).
Proof.
  intros Hb. induction l as [|x l IH]; simpl.
  - apply keeps_ret.
  - apply keeps_bind; [apply Hb|by intros _].
Qed.

Lemma keeps_mapM {A C} (g : A → M C) (l : list A) :
  (∀ x, keeps f (g x)) → keeps f (mapM g l).
Proof.
  intros Hg. induction l as [|x l IH]; simpl.
  - apply keeps_ret.
  - apply keeps_bind; [apply Hg|]. intros y.
    apply keeps_bind; [apply IH|]. intros ys. apply keeps_ret.
Qed.

Lemma keeps_if {A} (b : bool) (m1 m2 : M A) :
  keeps f m1 → keeps f m2 → keeps f (if b then m1 else m2).
Proof. by destruct b. Qed.
End Keeps.

#[local] Hint Resolve keeps_ret keeps_throw keeps_lift keeps_bind keeps_try_catch
  keeps_for_each keeps_mapM keeps_if : keeps.

Section KeepsRetryState.
Variable E : Env.

Lemma getConnection_keeps_retry_state : keeps retry_state (getConnection E).
Proof. intros w. unfold getConnection. by destruct (createConnection E _). Qed.

Lemma connection_end_keeps_retry_state c : keeps retry_state (connection_end c).
Proof. by intros w. Qed.

Lemma connection_execute_keeps_retry_state q postId :
  keeps retry_state (connection_execute E q postId).
Proof. intros w. unfold connection_execute. by destruct (execute E q postId). Qed.

Lemma new_array_keeps_retry_state : keeps retry_state new_array.
Proof. by intros w. Qed.

Lemma push_keeps_retry_state a s : keeps retry_state (push a s).
Proof. by intros w. Qed.

Lemma read_array_keeps_retry_state a : keeps retry_state (read_array a).
Proof. by intros w. Qed.

Lemma submit_keeps_retry_state b a : keeps retry_state (submit E b a).
Proof. by intros w. Qed.

Hint Resolve getConnection_keeps_retry_state connection_end_keeps_retry_state
  connection_execute_keeps_retry_state new_array_keeps_retry_state
  push_keeps_retry_state read_array_keeps_retry_state
  submit_keeps_retry_state : keeps.

Lemma getEmailsByPostId_keeps_retry_state postId :
  keeps retry_state (getEmailsByPostId E postId).
Proof. unfold getEmailsByPostId. eauto 10 with keeps. Qed.

Lemma getNewsletterNameByPostId_keeps_retry_state postId :
  keeps retry_state (getNewsletterNameByPostId E postId).
Proof. unfold getNewsletterNameByPostId. eauto 10 with keeps. Qed.

Lemma send_keeps_retry_state userData newsletter :
  keeps retry_state (send E userData newsletter).
Proof. unfold send, email_of. eauto 30 with keeps. Qed.

Lemma run_microtasks_keeps_retry_state : keeps retry_state run_microtasks.
Proof.
  intros w. unfold run_microtasks.
  rewrite (keeps_for_each retry_state); [done|].
  intros r. unfold run_reaction, then_callback.
  destruct (settlement r); eauto 10 with keeps.
Qed.

Hint Resolve getEmailsByPostId_keeps_retry_state
  getNewsletterNameByPostId_keeps_retry_state : keeps.

Lemma hooks_keeps_retry_state sender postData :
  (∀ users content, keeps retry_state (sender users content)) →
  keeps retry_state (hooks E sender postData).
Proof.
  intros Hs. unfold hooks, newsletterData_of, current, sendStatus.
  eauto 40 with keeps.
Qed.
End KeepsRetryState.

(** ** C9: the attempt counter is shared by all calls *)

Section Counter.
Variable E : Env.

Lemma run_call_retry_state c w :
  c ≠ CallConnect → retry_state (run_call E c w) = retry_state w.
Proof.
  destruct c; simpl; intros Hc; try done.
  - apply getEmailsByPostId_keeps_retry_state.
  - apply getNewsletterNameByPostId_keeps_retry_state.
  - apply hooks_keeps_retry_state. intros. apply send_keeps_retry_state.
  - apply run_microtasks_keeps_retry_state.
Qed.

(** Every call leaves the counter at least where it was, and the counter
    stays one above the number of failed attempts (each failed attempt is
    followed by one sleep, and nothing else sleeps). *)
Lemma run_call_counter c w :
  CONNECTION_ATTEMPTS w ≤ CONNECTION_ATTEMPTS (run_call E c w) ∧
  (CONNECTION_ATTEMPTS w = 1 + length (slept w) →
   CONNECTION_ATTEMPTS (run_call E c w) = 1 + length (slept (run_call E c w))).
Proof.
  assert (c = CallConnect ∨ c ≠ CallConnect) as [->|Hc]
    by (destruct c; (by left) || (by right)).
  - simpl. destruct (attempt_effect E w) as (delays & Hs & Ha & _).
    simpl in Hs, Ha. rewrite Hs, Ha, length_app. lia.
  - pose proof (run_call_retry_state c w Hc) as Hk. unfold retry_state in Hk.
    injection Hk as Ha Hs. rewrite Ha, Hs. lia.
Qed.

Lemma run_calls_counter cs w :
  CONNECTION_ATTEMPTS w ≤ CONNECTION_ATTEMPTS (run_calls E cs w) ∧
  (CONNECTION_ATTEMPTS w = 1 + length (slept w) →
   CONNECTION_ATTEMPTS (run_calls E cs w) = 1 + length (slept (run_calls E cs w))).
Proof.
  revert w. induction cs as [|c cs IH]; intros w; [by simpl|].
  simpl. destruct (run_call_counter c w) as [Hle Hinv].
  destruct (IH (run_call E c w)) as [Hle' Hinv'].
  split; [lia|auto].
Qed.
End Counter.

(** C9.  The attempt counter is one variable of the process, set to 1 when
    the process starts and never reset.  After any calls [before], the
    counter is one more than the number k of connection attempts that have
    failed so far (each of them was followed by one sleep); a call of
    [attemptToConnectMySql] then asks for at most 6 - k connections; and
    once the counter is above 6, every call of [attemptToConnectMySql],
    now or after any calls [later], throws at once: no connection is asked
    for and the world is unchanged. *)
Theorem retry_budget_is_process_wide (E : Env) (before later : list Call) :
  CONNECTION_ATTEMPTS initial_world = 1 ∧
  CONNECTION_ATTEMPTS (run_calls E before initial_world)
  = 1 + length (slept (run_calls E before initial_world)) ∧
  connect_calls (attemptToConnectMySql E (run_calls E before initial_world)).2
  - connect_calls (run_calls E before initial_world)
  ≤ 6 - length (slept (run_calls E before initial_world)) ∧
  CONNECTION_ATTEMPTS (run_calls E before initial_world)
  ≤ CONNECTION_ATTEMPTS (run_calls E later (run_calls E before initial_world)) ∧
  (6 < CONNECTION_ATTEMPTS (run_calls E before initial_world) →
   attemptToConnectMySql E (run_calls E later (run_calls E before initial_world))
   = (Throw (Error "Failed to connect to the database after multiple attempts."),
      run_calls E later (run_calls E before initial_world))).
Proof.
  split; [reflexivity|].
  destruct (run_calls_counter E before initial_world) as [_ Hinv].
  specialize (Hinv eq_refl).
  destruct (run_calls_counter E later (run_calls E before initial_world)) as [Hmono _].
  set (w := run_calls E before initial_world) in *.
  split; [exact Hinv|]. split; [|split; [exact Hmono|]].
  - destruct (attempt_effect E w) as (delays & _ & Ha & Hd & _ & _ & _ & _ & Hr).
    simpl in Ha, Hd, Hr. unfold MAX_CXN_RETRIES in Hd, Hr.
    destruct (attemptToConnectMySql E w).1; lia.
  - intros Hgt. apply attempt_exhausted. unfold MAX_CXN_RETRIES. lia.
Qed.

Lemma retry_budget_is_process_wide_witness :
  6 < CONNECTION_ATTEMPTS (run_calls never_connects [CallConnect] initial_world) ∧
  attemptToConnectMySql never_connects
    (run_calls never_connects [CallEmails (VStr "42"); CallConnect]
       (run_calls never_connects [CallConnect] initial_world))
  = (Throw (Error "Failed to connect to the database after multiple attempts."),
     run_calls never_connects [CallEmails (VStr "42"); CallConnect]
       (run_calls never_connects [CallConnect] initial_world)).
Proof.
  split; [vm_compute; lia|].
  apply (retry_budget_is_process_wide never_connects [CallConnect]
           [CallEmails (VStr "42"); CallConnect]).
  vm_compute. lia.
Defined.

(** ** The resolvers, path by path *)

Section Resolvers.
Variable E : Env.

Lemma getConnection_outbox : keeps outbox (getConnection E).
Proof. intros w. unfold getConnection. by destruct (createConnection E _). Qed.

Lemma getConnection_opens w c w1 :
  getConnection E w = (Return c, w1) →
  c = connect_calls w ∧
  open_connections w1 = {[c]} ∪ open_connections w.
Proof.
  unfold getConnection. destruct (createConnection E _); intros H;
    inversion H; subst; by simpl.
Qed.

Lemma getConnection_fails w e w1 :
  getConnection E w = (Throw e, w1) →
  open_connections w1 = open_connections w.
Proof.
  unfold getConnection. destruct (createConnection E _); intros H;
    inversion H; subst; by simpl.
Qed.

(** The publication lookup reads [newsletter_uuid] from a row whose columns
    are [name] and [newsletter_id]. *)
Lemma newsletter_row_has_no_newsletter_uuid tuple :
  get_prop (row_object NEWSLETTER_QUERY tuple) "newsletter_uuid" = Return VUndefined.
Proof. destruct tuple as [|v1 [|v2 tuple]]; reflexivity. Qed.

Lemma getNewsletterNameByPostId_paths postId w :
  getNewsletterNameByPostId E postId w =
  match getConnection E w with
  | (Throw e, w1) => (Throw e, w1)
  | (Return _, w1) =>
      match execute E NEWSLETTER_QUERY postId with
      | None => (Throw ExecuteError, w1)
      | Some [] => (Throw (TypeError "name"), w1)
      | Some (tuple :: _) =>
          (Return (VObj [("name", field (row_object NEWSLETTER_QUERY tuple) "name");
                         ("newsletter_uuid", VUndefined)]), w1)
      end
  end.
Proof.
  unfold getNewsletterNameByPostId, try_catch, bind, connection_execute.
  destruct (getConnection E w) as [[c|e] w1]; [|done].
  destruct (execute E NEWSLETTER_QUERY postId) as [[|tuple tuples]|]; try done.
  destruct tuple as [|v1 [|v2 tuple]]; reflexivity.
Qed.

Lemma getEmailsByPostId_paths postId w :
  getEmailsByPostId E postId w =
  match getConnection E w with
  | (Throw e, w1) => (Throw e, w1)
  | (Return c, w1) =>
      match execute E EMAILS_QUERY postId with
      | None => (Throw ExecuteError, w1)
      | Some tuples =>
          (Return (map (fun row => {| email := field row "email";
                                      name := field row "name";
                                      uuid := field row "member_uuid" |})
                       (map (row_object EMAILS_QUERY) tuples)),
           (connection_end c w1).2)
      end
  end.
Proof.
  unfold getEmailsByPostId, try_catch, bind, connection_execute.
  destruct (getConnection E w) as [[c|e] w1]; [|done].
  by destruct (execute E EMAILS_QUERY postId) as [tuples|].
Qed.

Lemma publication_value_shape postId w w' r :
  getNewsletterNameByPostId E postId w = (Return r, w') →
  ∃ publication_name,
    r = VObj [("name", publication_name); ("newsletter_uuid", VUndefined)].
Proof.
  rewrite getNewsletterNameByPostId_paths.
  destruct (getConnection E w) as [[c|e] w1]; [|discriminate].
  destruct (execute E NEWSLETTER_QUERY postId) as [[|tuple rest]|];
    try discriminate.
  intros [= <- <-]. eauto.
Qed.

Lemma getEmailsByPostId_outbox postId : keeps outbox (getEmailsByPostId E postId).
Proof.
  intros w. rewrite getEmailsByPostId_paths.
  pose proof (getConnection_outbox w) as Hc.
  destruct (getConnection E w) as [[c|e] w1]; [|done].
  by destruct (execute E EMAILS_QUERY postId).
Qed.

Lemma getNewsletterNameByPostId_outbox postId :
  keeps outbox (getNewsletterNameByPostId E postId).
Proof.
  intros w. rewrite getNewsletterNameByPostId_paths.
  pose proof (getConnection_outbox w) as Hc.
  destruct (getConnection E w) as [[c|e] w1]; [|done].
  by destruct (execute E NEWSLETTER_QUERY postId) as [[|tuple tuples]|].
Qed.
End Resolvers.

(** ** C10: the uuid of the publication *)

(** C10.  For every successful publication lookup, the [newsletter_uuid]
    field of the value returned by [getNewsletterNameByPostId] is undefined:
    the rows of the query have the columns [name] and [newsletter_id], the
    code reads [rows[0].newsletter_uuid], and the value returned holds the
    name of the first row and nothing of its uuid. *)
Theorem newsletter_uuid_is_never_returned (E : Env) (postId : value)
    (w w' : World) (r : value) :
  getNewsletterNameByPostId E postId w = (Return r, w') →
  get_prop r "newsletter_uuid" = Return VUndefined ∧
  columns NEWSLETTER_QUERY = ["name"; "newsletter_id"] ∧
  ∃ tuple rest,
    execute E NEWSLETTER_QUERY postId = Some (tuple :: rest) ∧
    r = VObj [("name", field (row_object NEWSLETTER_QUERY tuple) "name");
              ("newsletter_uuid", VUndefined)] ∧
    ∀ publication uuid more,
      tuple = publication :: uuid :: more →
      r = VObj [("name", publication); ("newsletter_uuid", VUndefined)].
Proof.
  rewrite getNewsletterNameByPostId_paths.
  destruct (getConnection E w) as [[c|e] w1]; [|discriminate].
  destruct (execute E NEWSLETTER_QUERY postId) as [[|tuple rest]|];
    try discriminate.
  intros [= <- <-]. split; [reflexivity|]. split; [reflexivity|].
  exists tuple, rest. split; [reflexivity|]. split; [reflexivity|].
  intros publication uuid more ->. reflexivity.
Qed.

Lemma newsletter_uuid_is_never_returned_witness :
  getNewsletterNameByPostId example_env (VStr "42") initial_world
  = (Return (VObj [("name", VStr "News"); ("newsletter_uuid", VUndefined)]),
     (getConnection example_env initial_world).2) ∧
  get_prop (VObj [("name", VStr "News"); ("newsletter_uuid", VUndefined)])
    "newsletter_uuid" = Return VUndefined.
Proof.
  split; [reflexivity|].
  eapply (newsletter_uuid_is_never_returned example_env (VStr "42") initial_world).
  reflexivity.
Defined.

(** ** C6: the connections of the resolvers *)

(** C6 fails on the code.  A connection opened by the publication resolver
    is still open when the resolver is left, on every path: when it returns,
    when the query is rejected, and when no row is found.  The subscriber
    resolver ends its connection when it returns, and leaves it open when
    the query is rejected. *)
Theorem resolvers_leave_connections_open (E : Env) (postId : value) (w : World) :
  createConnection E (connect_calls w) = true →
  connect_calls w ∈ open_connections (getNewsletterNameByPostId E postId w).2 ∧
  (execute E EMAILS_QUERY postId = None →
   connect_calls w ∈ open_connections (getEmailsByPostId E postId w).2) ∧
  (execute E EMAILS_QUERY postId ≠ None →
   connect_calls w ∉ open_connections (getEmailsByPostId E postId w).2).
Proof.
  intros Hc. rewrite getNewsletterNameByPostId_paths, getEmailsByPostId_paths.
  unfold getConnection. rewrite Hc. split; [|split].
  - destruct (execute E NEWSLETTER_QUERY postId) as [[|tuple rest]|]; simpl;
      apply elem_of_union_l; by apply elem_of_singleton.
  - intros ->. simpl. apply elem_of_union_l. by apply elem_of_singleton.
  - intros Hq. destruct (execute E EMAILS_QUERY postId); [|done]. simpl.
    rewrite elem_of_difference, elem_of_singleton. tauto.
Qed.

Lemma resolvers_leave_connections_open_witness :
  createConnection example_env (connect_calls initial_world) = true ∧
  (getNewsletterNameByPostId example_env (VStr "42") initial_world).1
  = Return (VObj [("name", VStr "News"); ("newsletter_uuid", VUndefined)]) ∧
  connect_calls initial_world
  ∈ open_connections (getNewsletterNameByPostId example_env (VStr "42") initial_world).2.
Proof.
  split; [reflexivity|]. split; [reflexivity|].
  apply (resolvers_leave_connections_open example_env (VStr "42") initial_world).
  reflexivity.
Defined.

(** ** The handler *)

Section Hooks.
Variable E : Env.
Variable sender : list UserData → value → M nat.

(** The handler once [postData.post.current.id] has been read. *)
Lemma hooks_with_id postData postId w :
  get_path postData ["post"; "current"; "id"] = Return postId →
  hooks E sender postData w =
  try_catch
    (usersToEmail <- getEmailsByPostId E postId ;;
     newsletterName <- getNewsletterNameByPostId E postId ;;
     newsletterData <- newsletterData_of postData newsletterName ;;
     failureEmails <- sender usersToEmail newsletterData ;;
     failed <- read_array failureEmails ;;
     if 0 <? length failed
     then throw (Error ("Failed emails list: " ++ String.concat "," failed)%string)
     else sendStatus 200)
    (fun error => sendStatus 500) w.
Proof.
  intros Hid. unfold hooks. unfold bind at 1, current at 1, lift at 1.
  rewrite Hid. unfold bind at 1, current at 1, lift at 1. by rewrite Hid.
Qed.

Lemma hooks_emails_fail postData postId w e w1 :
  get_path postData ["post"; "current"; "id"] = Return postId →
  getEmailsByPostId E postId w = (Throw e, w1) →
  hooks E sender postData w = (Return 500, w1).
Proof.
  intros Hid He. rewrite (hooks_with_id _ _ _ Hid).
  unfold try_catch, bind. by rewrite He.
Qed.

Lemma hooks_newsletter_fails postData postId w users w1 e w2 :
  get_path postData ["post"; "current"; "id"] = Return postId →
  getEmailsByPostId E postId w = (Return users, w1) →
  getNewsletterNameByPostId E postId w1 = (Throw e, w2) →
  hooks E sender postData w = (Return 500, w2).
Proof.
  intros Hid He Hn. rewrite (hooks_with_id _ _ _ Hid).
  unfold try_catch, bind. by rewrite He, Hn.
Qed.

Lemma hooks_dispatched postData postId w users w1 publication w2 content a w3 :
  get_path postData ["post"; "current"; "id"] = Return postId →
  getEmailsByPostId E postId w = (Return users, w1) →
  getNewsletterNameByPostId E postId w1 = (Return publication, w2) →
  newsletterData_of postData publication w2 = (Return content, w2) →
  sender users content w2 = (Return a, w3) →
  hooks E sender postData w
  = (Return (if 0 <? length (default [] (heap w3 !! a)) then 500 else 200), w3).
Proof.
  intros Hid He Hn Hc Hs. rewrite (hooks_with_id _ _ _ Hid).
  unfold try_catch, bind. rewrite He, Hn, Hc, Hs. unfold read_array.
  by destruct (0 <? length (default [] (heap w3 !! a))).
Qed.
End Hooks.

(** ** C5: a post without a publication row *)

(** C5, as stated, fails: when the publication lookup returns no row, the
    error of [getNewsletterNameByPostId] is the TypeError of reading [name]
    of [rows[0]], which is undefined, and not an error raised by the
    program or the store. *)
Lemma no_publication_row_is_a_type_error :
  execute no_publication_env NEWSLETTER_QUERY (VStr "42") = Some [] ∧
  (getNewsletterNameByPostId no_publication_env (VStr "42") initial_world).1
  = Throw (TypeError "name") ∧
  ¬ ∃ e, (getNewsletterNameByPostId no_publication_env (VStr "42") initial_world).1
         = Throw e ∧ defined_error e = true.
Proof.
  split; [reflexivity|]. split; [reflexivity|].
  intros (e & He & Hd). vm_compute in He. injection He as <-. discriminate.
Qed.

(** C5, amended.  For every content id whose publication lookup returns
    zero rows, [getNewsletterNameByPostId] fails: it throws an error, and
    returns no value.  The handler then calls no sender, whatever the sender
    is: it answers 500, and no array, callback or batch has been added. *)
Theorem no_publication_row_fails_without_dispatch (E : Env)
    (postData postId : value) (w : World) :
  get_path postData ["post"; "current"; "id"] = Return postId →
  execute E NEWSLETTER_QUERY postId = Some [] →
  (∀ w0, ∃ e, (getNewsletterNameByPostId E postId w0).1 = Throw e) ∧
  ∃ w', (∀ sender, hooks E sender postData w = (Return 500, w')) ∧
        outbox w' = outbox w.
Proof.
  intros Hid Hrows.
  assert (Hfail : ∀ w0, ∃ e, (getNewsletterNameByPostId E postId w0).1 = Throw e).
  { intros w0. rewrite getNewsletterNameByPostId_paths, Hrows.
    destruct (getConnection E w0) as [[c|e] w1]; simpl; eauto. }
  split; [exact Hfail|].
  pose proof (getEmailsByPostId_outbox E postId w) as Ho1.
  destruct (getEmailsByPostId E postId w) as [[users|e] w1] eqn:He.
  - pose proof (getNewsletterNameByPostId_outbox E postId w1) as Ho2.
    destruct (Hfail w1) as [e He'].
    destruct (getNewsletterNameByPostId E postId w1) as [o w2] eqn:Hn.
    simpl in He', Ho1, Ho2. subst o.
    exists w2. split; [|by rewrite Ho2].
    intros sender. by eapply hooks_newsletter_fails.
  - exists w1. split; [|exact Ho1].
    intros sender. by eapply hooks_emails_fail.
Qed.

Lemma no_publication_row_fails_without_dispatch_witness :
  get_path example_post ["post"; "current"; "id"] = Return (VStr "42") ∧
  execute no_publication_env NEWSLETTER_QUERY (VStr "42") = Some [] ∧
  ∃ w', (∀ sender, hooks no_publication_env sender example_post initial_world
                   = (Return 500, w')) ∧
        outbox w' = outbox initial_world.
Proof.
  split; [reflexivity|]. split; [reflexivity|].
  apply (no_publication_row_fails_without_dispatch no_publication_env
           example_post (VStr "42") initial_world); reflexivity.
Defined.

(** ** C8: the status of the response *)

(** C8.  For every webhook request that reaches dispatch, with any sender,
    the handler answers 200 exactly when the failure list returned by the
    sender is empty, and 500 when it is not; it answers 500 as well when
    the subscriber lookup or the publication lookup throws. *)
Theorem hooks_status_follows_failure_list (E : Env)
    (sender : list UserData → value → M nat) (postData postId : value) (w : World) :
  get_path postData ["post"; "current"; "id"] = Return postId →
  (∀ users w1 publication w2 content failureEmails w3,
     getEmailsByPostId E postId w = (Return users, w1) →
     getNewsletterNameByPostId E postId w1 = (Return publication, w2) →
     newsletterData_of postData publication w2 = (Return content, w2) →
     sender users content w2 = (Return failureEmails, w3) →
     (hooks E sender postData w = (Return 200, w3)
      ↔ (read_array failureEmails w3).1 = Return []) ∧
     ((read_array failureEmails w3).1 ≠ Return [] →
      hooks E sender postData w = (Return 500, w3))) ∧
  (∀ e w1,
     getEmailsByPostId E postId w = (Throw e, w1) →
     hooks E sender postData w = (Return 500, w1)) ∧
  (∀ users w1 e w2,
     getEmailsByPostId E postId w = (Return users, w1) →
     getNewsletterNameByPostId E postId w1 = (Throw e, w2) →
     hooks E sender postData w = (Return 500, w2)).
Proof.
  intros Hid. split; [|split].
  - intros users w1 publication w2 content a w3 He Hn Hc Hs.
    rewrite (hooks_dispatched E sender _ _ _ _ _ _ _ _ _ _ Hid He Hn Hc Hs).
    unfold read_array. simpl.
    destruct (default [] (heap w3 !! a)) as [|x failed]; simpl.
    + split; [done|]. intros Hne. by destruct Hne.
    + split; [|done]. split; intros H; discriminate H.
  - intros e w1 He. by eapply hooks_emails_fail.
  - intros users w1 e w2 He Hn. by eapply hooks_newsletter_fails.
Qed.

Lemma hooks_status_follows_failure_list_witness :
  get_path example_post ["post"; "current"; "id"] = Return (VStr "42") ∧
  (read_array 0 (blocking_sender example_users example_content
                   (getNewsletterNameByPostId example_env (VStr "42")
                      (getEmailsByPostId example_env (VStr "42") initial_world).2).2).2).1
  ≠ Return [] ∧
  (hooks example_env blocking_sender example_post initial_world).1 = Return 500.
Proof.
  split; [reflexivity|]. split; [vm_compute; discriminate|].
  destruct (hooks_status_follows_failure_list example_env blocking_sender
              example_post (VStr "42") initial_world eq_refl) as [Hd _].
  destruct (Hd example_users
              (getEmailsByPostId example_env (VStr "42") initial_world).2
              (VObj [("name", VStr "News"); ("newsletter_uuid", VUndefined)])
              (getNewsletterNameByPostId example_env (VStr "42")
                 (getEmailsByPostId example_env (VStr "42") initial_world).2).2
              example_content 0
              (blocking_sender example_users example_content
                 (getNewsletterNameByPostId example_env (VStr "42")
                    (getEmailsByPostId example_env (VStr "42") initial_world).2).2).2
              eq_refl eq_refl eq_refl eq_refl) as [_ H500].
  rewrite H500; [reflexivity|]. vm_compute. discriminate.
Defined.

(** ** C1: the failure list when [send] returns *)

(** Whatever the provider answers, the array returned by [send] is empty
    when [send] returns: the callbacks that fill it are pending, one for
    each batch. *)
Lemma send_returns_an_empty_array (E : Env) (userData : list UserData)
    (newsletter : value) (w : World) :
  has_author newsletter = true →
  (send E userData newsletter w).1 = Return (next_loc w) ∧
  (read_array (next_loc w) (send E userData newsletter w).2).1 = Return [] ∧
  length (microtasks (send E userData newsletter w).2)
  = length (microtasks w) + ceil_div (length userData) BATCH_SIZE.
Proof.
  intros Ha. destruct (send_spec E userData newsletter w Ha) as (g & _ & ->).
  split; [reflexivity|]. split.
  - unfold read_array. simpl. by rewrite lookup_insert_eq.
  - simpl. by rewrite length_app, !length_map, batches_of_length.
Qed.

(** With the Postmark sender the handler reads an empty array, and answers
    200 whenever it gets as far as the dispatch. *)
Lemma hooks_with_send_answers_200 (E : Env) (postData postId : value)
    (w w1 w2 : World) (users : list UserData) (publication content : value) :
  get_path postData ["post"; "current"; "id"] = Return postId →
  getEmailsByPostId E postId w = (Return users, w1) →
  getNewsletterNameByPostId E postId w1 = (Return publication, w2) →
  newsletterData_of postData publication w2 = (Return content, w2) →
  has_author content = true →
  (hooks E (send E) postData w).1 = Return 200.
Proof.
  intros Hid He Hn Hc Ha.
  destruct (send_returns_an_empty_array E users content w2 Ha) as (Hr & Hread & _).
  destruct (send E users content w2) as [o w3] eqn:Hs. simpl in Hr. subst o.
  rewrite (hooks_dispatched E (send E) _ _ _ _ _ _ _ _ _ _ Hid He Hn Hc Hs).
  unfold read_array in Hread. simpl in Hread. injection Hread as ->. reflexivity.
Qed.

(** C1 fails on the code.  The provider refuses the only recipient of the
    request (error code 406); [send] returns the array [failedEmails] while
    it is still empty and its callback is pending; the handler reads the
    empty array and answers 200; the address enters the array afterwards,
    when the event loop runs the callback. *)
Theorem send_returns_before_the_outcomes :
  sendEmailBatchWithTemplates example_env
    (submitted (send example_env example_users example_content initial_world).2 !!! 0)
  = Fulfilled [BatchResponse.mk 406 "Inactive recipient" "" "" "bad@example.com"] ∧
  (send example_env example_users example_content initial_world).1 = Return 0 ∧
  (read_array 0 (send example_env example_users example_content initial_world).2).1
  = Return [] ∧
  microtasks (send example_env example_users example_content initial_world).2
  = [{| target := 0;
        settlement := Fulfilled
          [BatchResponse.mk 406 "Inactive recipient" "" "" "bad@example.com"] |}] ∧
  (read_array 0
     (run_microtasks
        (send example_env example_users example_content initial_world).2).2).1
  = Return ["bad@example.com"] ∧
  (hooks example_env (send example_env) example_post initial_world).1 = Return 200 ∧
  (read_array 0 (serve example_env example_post initial_world).2).1
  = Return ["bad@example.com"].
Proof. repeat split; vm_compute; reflexivity. Qed.

(** ** C7: the fields of the notification content *)

(** The content is the object literal of the handler: its [name] is the
    value of the publication lookup, its other fields are read from the
    event as they are, and it has no field [header_image], [created_at] or
    [uuid]. *)
Lemma newsletterData_of_shape (postData publication content : value) (w w' : World) :
  newsletterData_of postData publication w = (Return content, w') →
  w' = w ∧
  ∃ title excerpt html url feature_image author_name author_image postSlug,
    get_path postData ["post"; "current"; "title"] = Return title ∧
    get_path postData ["post"; "current"; "excerpt"] = Return excerpt ∧
    content = VObj [("name", publication);
                    ("title", title);
                    ("excerpt", excerpt);
                    ("html", html);
                    ("url", url);
                    ("feature_image", feature_image);
                    ("author", VObj [("name", author_name); ("image", author_image)]);
                    ("postSlug", postSlug)].
Proof.
  unfold newsletterData_of, bind, current, lift, ret.
  repeat match goal with
         | |- context [get_path ?v ?p] => destruct (get_path v p); [|discriminate]
         | |- context [get_prop ?v ?k] => destruct (get_prop v k); [|discriminate]
         end.
  intros [= <- <-]. split; [reflexivity|]. eauto 12.
Qed.

(** C7 fails on the code.  For every request that reaches dispatch, the
    field [name] of the content is the object returned by the publication
    lookup, not a string, and so is [newsletterName] in the model of every
    message; the fields [header_image], [created_at] and [newsletter_uuid]
    of the model are undefined; and the title and the excerpt are the
    values of the event, with no default. *)
Theorem content_fields_are_not_all_strings (E : Env) (postData postId : value)
    (w w1 w2 w3 : World) (publication content : value) (user : UserData) (m : Email) :
  getNewsletterNameByPostId E postId w = (Return publication, w1) →
  newsletterData_of postData publication w1 = (Return content, w2) →
  email_of E content user w2 = (Return m, w3) →
  get_prop content "name" = Return publication ∧
  is_string publication = false ∧
  newsletterName (TemplateModel m) = publication ∧
  header_image (TemplateModel m) = VUndefined ∧
  created_at (TemplateModel m) = VUndefined ∧
  newsletter_uuid (TemplateModel m) = VUndefined ∧
  get_path postData ["post"; "current"; "title"] = Return (title (TemplateModel m)) ∧
  get_path postData ["post"; "current"; "excerpt"] = Return (excerpt (TemplateModel m)).
Proof.
  intros Hn Hc Hm.
  destruct (publication_value_shape E postId w w1 publication Hn)
    as (publication_name & ->).
  destruct (newsletterData_of_shape _ _ _ _ _ Hc)
    as (-> & t & ex & h & u & f & an & ai & sl & Ht & Hex & ->).
  unfold email_of, bind, lift, ret in Hm. simpl in Hm.
  injection Hm as <- <-. simpl. by repeat split.
Qed.

Lemma content_fields_are_not_all_strings_witness :
  getNewsletterNameByPostId example_env (VStr "42") initial_world
  = (Return (VObj [("name", VStr "News"); ("newsletter_uuid", VUndefined)]),
     (getConnection example_env initial_world).2) ∧
  newsletterData_of example_post
    (VObj [("name", VStr "News"); ("newsletter_uuid", VUndefined)])
    (getConnection example_env initial_world).2
  = (Return example_content, (getConnection example_env initial_world).2) ∧
  email_of example_env example_content
    {| email := VStr "bad@example.com"; name := VStr "Bob"; uuid := VStr "member-1" |}
    (getConnection example_env initial_world).2
  = (Return example_email, (getConnection example_env initial_world).2) ∧
  is_string (VObj [("name", VStr "News"); ("newsletter_uuid", VUndefined)]) = false ∧
  header_image (TemplateModel example_email) = VUndefined.
Proof.
  do 3 (split; [reflexivity|]).
  destruct (content_fields_are_not_all_strings example_env example_post (VStr "42")
              initial_world
              (getConnection example_env initial_world).2
              (getConnection example_env initial_world).2
              (getConnection example_env initial_world).2
              (VObj [("name", VStr "News"); ("newsletter_uuid", VUndefined)])
              example_content
              {| email := VStr "bad@example.com"; name := VStr "Bob";
                 uuid := VStr "member-1" |}
              example_email eq_refl eq_refl eq_refl)
    as (_ & Hname & _ & Himage & _).
  split; [exact Hname | exact Himage].
Defined.

(** * Further properties of the code *)

(** ** [getRetryDelay] *)

(** The delay grows with the number of attempts, never leaves the range
    from one second to one minute, doubles from one attempt to the next up
    to the fifth and is the ceiling from the sixth on. *)
Theorem getRetryDelay_monotone_and_clamped (a b : nat) :
  (a ≤ b → (getRetryDelay a ≤ getRetryDelay b)%Z) ∧
  (1000 ≤ getRetryDelay a ≤ 60000)%Z ∧
  (a ≤ 4 → getRetryDelay (S a) = (2 * getRetryDelay a)%Z) ∧
  (6 ≤ a → getRetryDelay a = 60000%Z).
Proof.
  rewrite !getRetryDelay_min.
  assert (Hpow : ∀ n : nat, (1 ≤ 2 ^ Z.of_nat n)%Z).
  { intros n. apply (Z.pow_le_mono_r 2 0 (Z.of_nat n)); lia. }
  split; [|split; [|split]].
  - intros Hab.
    pose proof (Z.pow_le_mono_r 2 (Z.of_nat a) (Z.of_nat b) ltac:(lia) ltac:(lia)).
    lia.
  - specialize (Hpow a). lia.
  - intros Ha. rewrite Nat2Z.inj_succ, Z.pow_succ_r by lia.
    pose proof (Z.pow_le_mono_r 2 (Z.of_nat a) 4 ltac:(lia) ltac:(lia)) as H4.
    change (2 ^ 4)%Z with 16%Z in H4. specialize (Hpow a). lia.
  - intros Ha.
    pose proof (Z.pow_le_mono_r 2 6 (Z.of_nat a) ltac:(lia) ltac:(lia)) as H6.
    change (2 ^ 6)%Z with 64%Z in H6. lia.
Qed.

Lemma getRetryDelay_monotone_and_clamped_witness :
  3 ≤ 9 ∧ (getRetryDelay 3 ≤ getRetryDelay 9)%Z ∧
  getRetryDelay 4 = (2 * getRetryDelay 3)%Z ∧ getRetryDelay 9 = 60000%Z.
Proof.
  split; [lia|].
  destruct (getRetryDelay_monotone_and_clamped 3 9) as (Hm & _ & Hd & _).
  destruct (getRetryDelay_monotone_and_clamped 9 9) as (_ & _ & _ & Hc).
  split; [apply Hm; lia|]. split; [apply Hd; lia|apply Hc; lia].
Defined.

(** ** [attemptToConnectMySql] in general *)

(** When the next [j] connections fail and the one after succeeds, within
    the budget left, the call returns true after [j] sleeps, whose delays
    are those of the attempt numbers at and after the counter; the
    connection that succeeded is left open. *)
Theorem connect_succeeds_after_failures (E : Env) (j : nat) (w : World) :
  CONNECTION_ATTEMPTS w + j ≤ 6 →
  (∀ i, i < j → createConnection E (connect_calls w + i) = false) →
  createConnection E (connect_calls w + j) = true →
  (attemptToConnectMySql E w).1 = Return true ∧
  slept (attemptToConnectMySql E w).2
  = slept w ++ map getRetryDelay (seq (CONNECTION_ATTEMPTS w) j) ∧
  CONNECTION_ATTEMPTS (attemptToConnectMySql E w).2 = CONNECTION_ATTEMPTS w + j ∧
  connect_calls (attemptToConnectMySql E w).2 = connect_calls w + j + 1 ∧
  open_connections (attemptToConnectMySql E w).2
  = {[connect_calls w + j]} ∪ open_connections w.
Proof.
  revert w. induction j as [|j IH]; intros [a c o s h n m b]; simpl;
    intros Hle Hfail Hok.
  - rewrite Nat.add_0_r in Hle, Hok. rewrite !Nat.add_0_r.
    rewrite attempt_connects by (done || unfold MAX_CXN_RETRIES; lia).
    simpl. rewrite app_nil_r. repeat split; lia.
  - rewrite attempt_retries;
      [|unfold MAX_CXN_RETRIES; lia
       |by rewrite <- (Nat.add_0_r c); apply Hfail; lia].
    destruct (IH (mkWorld (S a) (S c) o (s ++ [getRetryDelay a]) h n m b))
      as (Hr & Hs & Ha & Hc & Ho); simpl.
    + lia.
    + intros i Hi. rewrite <- Nat.add_succ_r. apply Hfail. lia.
    + by rewrite <- Nat.add_succ_r.
    + simpl in *. rewrite Hr, Hs, Ha, Hc, Ho, <- app_assoc. simpl.
      rewrite <- !Nat.add_succ_r. repeat split; lia.
Qed.

(** The oracle either lets a connection through within the budget left,
    after some number of failures, or fails every attempt of the budget. *)
Lemma budget_dichotomy (E : Env) (a c : nat) :
  (∃ j, a + j ≤ 6 ∧ (∀ i, i < j → createConnection E (c + i) = false) ∧
        createConnection E (c + j) = true) ∨
  (∀ j, a + j ≤ 6 → createConnection E (c + j) = false).
Proof.
  remember (7 - a) as fuel eqn:Hfuel. revert a c Hfuel.
  induction fuel as [|fuel IH]; intros a c Hfuel.
  - right. intros j Hj. lia.
  - destruct (createConnection E c) eqn:Hc.
    + left. exists 0. rewrite !Nat.add_0_r. repeat split; [lia| |done].
      intros i Hi. lia.
    + destruct (IH (S a) (S c) ltac:(lia)) as [(j & Hj & Hfail & Hok)|Hall].
      * left. exists (S j). rewrite !Nat.add_succ_r. repeat split; [lia| |done].
        intros [|i] Hi; [by rewrite Nat.add_0_r|].
        rewrite Nat.add_succ_r. apply (Hfail i). lia.
      * right. intros [|j] Hj; [by rewrite Nat.add_0_r|].
        rewrite Nat.add_succ_r. apply (Hall j). lia.
Qed.

(** The outcome of the call, from what the oracle does within the budget. *)
Lemma attempt_outcome_of_budget (E : Env) (w : World) :
  ((∃ j, CONNECTION_ATTEMPTS w + j ≤ 6 ∧
         createConnection E (connect_calls w + j) = true) →
   (attemptToConnectMySql E w).1 = Return true) ∧
  ((∀ j, CONNECTION_ATTEMPTS w + j ≤ 6 →
         createConnection E (connect_calls w + j) = false) →
   (attemptToConnectMySql E w).1
   = Throw (Error "Failed to connect to the database after multiple attempts.")).
Proof.
  remember (7 - CONNECTION_ATTEMPTS w) as fuel eqn:Hfuel.
  revert w Hfuel. induction fuel as [|fuel IH]; intros [a c o s h n m b]; simpl;
    intros Hfuel.
  - split.
    + intros (j & Hj & _). lia.
    + intros _. by rewrite attempt_exhausted by (simpl; unfold MAX_CXN_RETRIES; lia).
  - destruct (createConnection E c) eqn:Hc.
    + split.
      * intros _. by rewrite attempt_connects by (done || unfold MAX_CXN_RETRIES; lia).
      * intros Hall. specialize (Hall 0 ltac:(lia)). rewrite Nat.add_0_r in Hall.
        congruence.
    + rewrite attempt_retries by (done || unfold MAX_CXN_RETRIES; lia).
      destruct (IH (mkWorld (S a) (S c) o (s ++ [getRetryDelay a]) h n m b)
                  ltac:(simpl; lia)) as [Hsome Hall'].
      simpl in Hsome, Hall'. split.
      * intros (j & Hj & Hok). apply Hsome. destruct j as [|j].
        -- rewrite Nat.add_0_r in Hok. congruence.
        -- exists j. rewrite Nat.add_succ_r in Hok. split; [lia|done].
      * intros Hall. apply Hall'. intros j Hj.
        specialize (Hall (S j) ltac:(lia)). by rewrite Nat.add_succ_r in Hall.
Qed.

Lemma connect_succeeds_after_failures_witness :
  CONNECTION_ATTEMPTS initial_world + 5 ≤ 6 ∧
  (∀ i, i < 5 → createConnection (connects_from 5) (connect_calls initial_world + i) = false) ∧
  createConnection (connects_from 5) (connect_calls initial_world + 5) = true ∧
  (attemptToConnectMySql (connects_from 5) initial_world).1 = Return true ∧
  slept (attemptToConnectMySql (connects_from 5) initial_world).2
  = slept initial_world ++ map getRetryDelay (seq (CONNECTION_ATTEMPTS initial_world) 5).
Proof.
  assert (Hfail : ∀ i, i < 5 →
            createConnection (connects_from 5) (connect_calls initial_world + i) = false).
  { intros i Hi. do 5 (destruct i as [|i]; [reflexivity|]). lia. }
  split; [simpl; lia|]. split; [exact Hfail|]. split; [reflexivity|].
  destruct (connect_succeeds_after_failures (connects_from 5) 5 initial_world)
    as (Hr & Hs & _); [simpl; lia|exact Hfail|reflexivity|].
  split; [exact Hr|exact Hs].
Defined.

(** The call returns true exactly when one of the connections it may still
    ask for succeeds, and otherwise throws its own error: it never returns
    false and never passes on the error of the driver. *)
Theorem connect_returns_true_iff_within_budget (E : Env) (w : World) :
  ((attemptToConnectMySql E w).1 = Return true
   ↔ ∃ j, CONNECTION_ATTEMPTS w + j ≤ 6 ∧
          createConnection E (connect_calls w + j) = true) ∧
  ((attemptToConnectMySql E w).1
   = Throw (Error "Failed to connect to the database after multiple attempts.")
   ↔ ∀ j, CONNECTION_ATTEMPTS w + j ≤ 6 →
          createConnection E (connect_calls w + j) = false) ∧
  ((attemptToConnectMySql E w).1 = Return true ∨
   (attemptToConnectMySql E w).1
   = Throw (Error "Failed to connect to the database after multiple attempts.")).
Proof.
  destruct (attempt_outcome_of_budget E w) as [Hsome Hall].
  destruct (budget_dichotomy E (CONNECTION_ATTEMPTS w) (connect_calls w))
    as [(j & Hj & _ & Hok)|Hnone].
  - rewrite Hsome by eauto. split; [|split; [|by left]]; split; try done.
    + intros _. eauto.
    + intros Hnone. rewrite (Hnone j Hj) in Hok. discriminate.
  - rewrite Hall by done. split; [|split; [|by right]]; split; try done.
    intros (j & Hj & Hok). rewrite (Hnone j Hj) in Hok. discriminate.
Qed.

(** When every connection of the budget left fails, the call throws after
    one attempt and one sleep for each attempt number from the counter up
    to 6, leaves the counter at 7 (or where it was, above 7) and opens no
    connection. *)
Theorem connect_exhausts_the_budget_left (E : Env) (w : World) :
  (∀ j, CONNECTION_ATTEMPTS w + j ≤ 6 →
        createConnection E (connect_calls w + j) = false) →
  (attemptToConnectMySql E w).1
  = Throw (Error "Failed to connect to the database after multiple attempts.") ∧
  slept (attemptToConnectMySql E w).2
  = slept w ++ map getRetryDelay (seq (CONNECTION_ATTEMPTS w) (7 - CONNECTION_ATTEMPTS w)) ∧
  CONNECTION_ATTEMPTS (attemptToConnectMySql E w).2 = CONNECTION_ATTEMPTS w `max` 7 ∧
  connect_calls (attemptToConnectMySql E w).2
  = connect_calls w + (7 - CONNECTION_ATTEMPTS w) ∧
  open_connections (attemptToConnectMySql E w).2 = open_connections w.
Proof.
  remember (7 - CONNECTION_ATTEMPTS w) as fuel eqn:Hfuel.
  revert w Hfuel. induction fuel as [|fuel IH]; intros [a c o s h n m b]; simpl;
    intros Hfuel Hfail.
  - rewrite attempt_exhausted by (simpl; unfold MAX_CXN_RETRIES; lia).
    simpl. rewrite app_nil_r. repeat split; lia.
  - rewrite attempt_retries;
      [|unfold MAX_CXN_RETRIES; lia
       |by rewrite <- (Nat.add_0_r c); apply Hfail; lia].
    destruct (IH (mkWorld (S a) (S c) o (s ++ [getRetryDelay a]) h n m b))
      as (Hr & Hs & Ha & Hc & Ho); simpl.
    + lia.
    + intros i Hi. rewrite <- Nat.add_succ_r. apply Hfail. lia.
    + simpl in *. rewrite Hr, Hs, Ha, Hc, Ho, <- app_assoc. simpl.
      repeat split; lia.
Qed.

Lemma connect_exhausts_the_budget_left_witness :
  (∀ j, 4 + j ≤ 6 → createConnection never_connects (0 + j) = false) ∧
  slept (attemptToConnectMySql never_connects
           (mkWorld 4 0 ∅ [] ∅ 0 [] [])).2 = [16000; 32000; 60000]%Z.
Proof.
  split; [intros j _; reflexivity|].
  destruct (connect_exhausts_the_budget_left never_connects
              (mkWorld 4 0 ∅ [] ∅ 0 [] [])) as (_ & Hs & _);
    [intros j _; reflexivity|].
  exact Hs.
Defined.

(** ** The resolvers *)

(** The subscriber lookup returns one user for each row of the result, in
    the order of the rows: the first column is the address, the second the
    uuid and the third the name.  No row gives the empty list, not an
    error. *)
Theorem getEmailsByPostId_maps_rows (E : Env) (postId : value) (w : World)
    (rows : list (value * value * value)) :
  createConnection E (connect_calls w) = true →
  execute E EMAILS_QUERY postId
  = Some (map (fun '(address, member_uuid, member_name) =>
                 [address; member_uuid; member_name]) rows) →
  (getEmailsByPostId E postId w).1
  = Return (map (fun '(address, member_uuid, member_name) =>
                   {| email := address; name := member_name; uuid := member_uuid |})
                rows).
Proof.
  intros Hc Hq. rewrite getEmailsByPostId_paths. unfold getConnection.
  rewrite Hc, Hq. simpl. f_equal. rewrite <- !list_fmap_compose.
  apply list_fmap_ext. intros _ [[address member_uuid] member_name] _.
  reflexivity.
Qed.

Lemma getEmailsByPostId_maps_rows_witness :
  createConnection example_env (connect_calls initial_world) = true ∧
  execute example_env EMAILS_QUERY (VStr "42")
  = Some (map (fun '(address, member_uuid, member_name) =>
                 [address; member_uuid; member_name])
              [(VStr "bad@example.com", VStr "member-1", VStr "Bob")]) ∧
  (getEmailsByPostId example_env (VStr "42") initial_world).1 = Return example_users.
Proof.
  split; [reflexivity|]. split; [reflexivity|].
  apply (getEmailsByPostId_maps_rows example_env (VStr "42") initial_world
           [(VStr "bad@example.com", VStr "member-1", VStr "Bob")]);
    reflexivity.
Defined.

(** Each call of a resolver asks for exactly one connection and does not
    retry: when the connection is refused it throws the error of the driver
    and no connection is open; when the query is rejected it throws that
    error.  It never sleeps and never touches the attempt counter. *)
Theorem resolvers_ask_for_one_connection (E : Env) (postId : value) (w : World) :
  connect_calls (getEmailsByPostId E postId w).2 = S (connect_calls w) ∧
  connect_calls (getNewsletterNameByPostId E postId w).2 = S (connect_calls w) ∧
  retry_state (getEmailsByPostId E postId w).2 = retry_state w ∧
  retry_state (getNewsletterNameByPostId E postId w).2 = retry_state w ∧
  (createConnection E (connect_calls w) = false →
   (getEmailsByPostId E postId w).1 = Throw ConnectError ∧
   (getNewsletterNameByPostId E postId w).1 = Throw ConnectError ∧
   open_connections (getEmailsByPostId E postId w).2 = open_connections w ∧
   open_connections (getNewsletterNameByPostId E postId w).2 = open_connections w) ∧
  (createConnection E (connect_calls w) = true →
   (execute E EMAILS_QUERY postId = None →
    (getEmailsByPostId E postId w).1 = Throw ExecuteError) ∧
   (execute E NEWSLETTER_QUERY postId = None →
    (getNewsletterNameByPostId E postId w).1 = Throw ExecuteError)).
Proof.
  split; [|split; [|split; [|split; [|split]]]].
  - rewrite getEmailsByPostId_paths. unfold getConnection.
    destruct (createConnection E _); [|done].
    by destruct (execute E EMAILS_QUERY postId).
  - rewrite getNewsletterNameByPostId_paths. unfold getConnection.
    destruct (createConnection E _); [|done].
    by destruct (execute E NEWSLETTER_QUERY postId) as [[|tuple rest]|].
  - apply getEmailsByPostId_keeps_retry_state.
  - apply getNewsletterNameByPostId_keeps_retry_state.
  - intros Hc. rewrite getEmailsByPostId_paths, getNewsletterNameByPostId_paths.
    unfold getConnection. by rewrite Hc.
  - intros Hc. rewrite getEmailsByPostId_paths, getNewsletterNameByPostId_paths.
    unfold getConnection. rewrite Hc. by split; intros ->.
Qed.

Lemma resolvers_ask_for_one_connection_witness :
  createConnection never_connects (connect_calls initial_world) = false ∧
  (getEmailsByPostId never_connects (VStr "42") initial_world).1 = Throw ConnectError ∧
  createConnection rejecting_env (connect_calls initial_world) = true ∧
  execute rejecting_env NEWSLETTER_QUERY (VStr "42") = None ∧
  (getNewsletterNameByPostId rejecting_env (VStr "42") initial_world).1
  = Throw ExecuteError.
Proof.
  split; [reflexivity|].
  destruct (resolvers_ask_for_one_connection never_connects (VStr "42") initial_world)
    as (_ & _ & _ & _ & Hrefused & _).
  destruct (resolvers_ask_for_one_connection rejecting_env (VStr "42") initial_world)
    as (_ & _ & _ & _ & _ & Hrejected).
  split; [by apply Hrefused|]. split; [reflexivity|]. split; [reflexivity|].
  by apply Hrejected.
Defined.

(** ** The callbacks of [send] *)

Section Callbacks.

Lemma append_twice (o : option (list string)) (l1 l2 : list string) :
  (fun l => l ++ l2) <$> ((fun l => l ++ l1) <$> o) = (fun l => l ++ l1 ++ l2) <$> o.
Proof. destruct o as [l|]; simpl; [|done]. by rewrite <- app_assoc. Qed.

Lemma append_nothing (o : option (list string)) : (fun l => l ++ []) <$> o = o.
Proof. destruct o as [l|]; simpl; [|done]. by rewrite app_nil_r. Qed.

Lemma then_callback_array a response w :
  (then_callback a response w).1 = Return tt ∧
  heap (then_callback a response w).2 !! a
  = (fun l => l ++ map BatchResponse.To (List.filter is_failure response)) <$> heap w !! a ∧
  (∀ b, b ≠ a → heap (then_callback a response w).2 !! b = heap w !! b) ∧
  around_heap (then_callback a response w).2 = around_heap w.
Proof.
  revert w. induction response as [|result response IH]; intros w.
  - simpl. rewrite append_nothing. by repeat split.
  - unfold then_callback. simpl for_each. fold (is_failure result).
    fold (then_callback a response). unfold bind.
    destruct (is_failure result) eqn:Hf; simpl List.filter; rewrite Hf.
    + assert (Hp : push a (BatchResponse.To result) w
                   = (Return tt, (push a (BatchResponse.To result) w).2))
        by reflexivity.
      rewrite Hp. cbv beta iota.
      destruct (IH (push a (BatchResponse.To result) w).2) as (Hr & Ha & Hb & Hw).
      split; [exact Hr|]. split; [|split].
      * rewrite Ha. simpl heap. by rewrite lookup_alter_eq, append_twice.
      * intros b Hne. rewrite (Hb b Hne). simpl heap. by rewrite lookup_alter_ne.
      * by rewrite Hw.
    + unfold ret. cbv beta iota. apply IH.
Qed.


End Callbacks.

(** The callback appends to the array, in the order of the response, the
    address of every result whose message is not OK or whose error code is
    not 0, and of no other; the other arrays and the rest of the world stay
    as they were. *)
Theorem then_callback_keeps_the_failures (a : nat) (response : list BatchResponse.t)
    (w : World) (l : list string) :
  heap w !! a = Some l →
  heap (then_callback a response w).2 !! a
  = Some (l ++ map BatchResponse.To (List.filter is_failure response)) ∧
  (∀ result, is_failure result = false
             ↔ BatchResponse.Message result = "OK" ∧ BatchResponse.ErrorCode result = 0%Z) ∧
  (∀ b, b ≠ a → heap (then_callback a response w).2 !! b = heap w !! b) ∧
  around_heap (then_callback a response w).2 = around_heap w.
Proof.
  intros Hl. destruct (then_callback_array a response w) as (_ & Ha & Hb & Hw).
  split; [by rewrite Ha, Hl|]. split; [|by split].
  intros result. unfold is_failure.
  destruct (String.eqb_spec (BatchResponse.Message result) "OK") as [->|Hm];
    destruct (Z.eqb_spec (BatchResponse.ErrorCode result) 0) as [->|Hc];
    simpl; split; try done; intros [? ?]; done.
Qed.

Lemma then_callback_keeps_the_failures_witness :
  heap (new_array initial_world).2 !! 0 = Some [] ∧
  heap (then_callback 0
          [BatchResponse.mk 0 "OK" "id-1" "now" "ann@example.com";
           BatchResponse.mk 0 "Test job accepted" "id-2" "now" "bob@example.com";
           BatchResponse.mk 406 "OK" "" "" "eve@example.com"]
          (new_array initial_world).2).2 !! 0
  = Some ([] ++ ["bob@example.com"; "eve@example.com"]).
Proof.
  split; [reflexivity|].
  apply (then_callback_keeps_the_failures 0
           [BatchResponse.mk 0 "OK" "id-1" "now" "ann@example.com";
            BatchResponse.mk 0 "Test job accepted" "id-2" "now" "bob@example.com";
            BatchResponse.mk 406 "OK" "" "" "eve@example.com"]
           (new_array initial_world).2 []).
  reflexivity.
Defined.

(** ** [send] and the event loop *)

Section SendLater.
Variable E : Env.



End SendLater.



(** With no recipient, [send] makes no call to the provider and leaves no
    callback, whatever the content holds, and returns an empty array. *)
Theorem send_without_recipients (E : Env) (newsletter : value) (w : World) :
  is_nullish newsletter = false →
  (send E [] newsletter w).1 = Return (next_loc w) ∧
  (read_array (next_loc w) (send E [] newsletter w).2).1 = Return [] ∧
  submitted (send E [] newsletter w).2 = submitted w ∧
  microtasks (send E [] newsletter w).2 = microtasks w.
Proof.
  intros Hn. unfold send, bind, lift.
  assert (∃ v, get_prop newsletter "postSlug" = Return v) as [v ->]
    by (destruct newsletter; try discriminate; simpl; eauto).
  simpl. unfold read_array. simpl. by rewrite lookup_insert_eq.
Qed.

Lemma send_without_recipients_witness :
  is_nullish (VObj []) = false ∧
  (send example_env [] (VObj []) initial_world).1 = Return 0 ∧
  submitted (send example_env [] (VObj []) initial_world).2 = [].
Proof.
  split; [reflexivity|].
  destruct (send_without_recipients example_env (VObj []) initial_world eq_refl)
    as (Hr & _ & Hs & _).
  split; [exact Hr|exact Hs].
Defined.

(** ** [send] on content it cannot read *)

Lemma email_of_without_author (E : Env) (newsletter : value) (user : UserData) (w : World) :
  is_nullish newsletter = false →
  has_author newsletter = false →
  email_of E newsletter user w = (Throw (TypeError "name"), w).
Proof.
  unfold has_author. intros Hn Ha.
  destruct newsletter as [| | | | |fields]; try discriminate; try reflexivity.
  simpl in Ha. unfold email_of, bind, lift. simpl.
  destruct (lookup_field "author" fields); try discriminate; reflexivity.
Qed.

(** When the content is undefined or null, [send] throws on reading
    [postSlug]; when the content has no author and there is a recipient, it
    throws on reading the name of the author.  Either way it has made no
    call to the provider and left no callback. *)
Theorem send_throws_before_any_batch (E : Env) (userData : list UserData)
    (newsletter : value) (w : World) :
  (is_nullish newsletter = true →
   (send E userData newsletter w).1 = Throw (TypeError "postSlug") ∧
   submitted (send E userData newsletter w).2 = submitted w ∧
   microtasks (send E userData newsletter w).2 = microtasks w) ∧
  (is_nullish newsletter = false → has_author newsletter = false →
   userData ≠ [] →
   (send E userData newsletter w).1 = Throw (TypeError "name") ∧
   submitted (send E userData newsletter w).2 = submitted w ∧
   microtasks (send E userData newsletter w).2 = microtasks w).
Proof.
  split.
  - intros Hn. destruct newsletter; try discriminate; by repeat split.
  - intros Hn Ha Hne. destruct userData as [|user rest]; [done|].
    assert (Hsend : send E (user :: rest) newsletter w
                    = (Throw (TypeError "name"), (new_array w).2)).
    { unfold send. unfold bind, lift.
      assert (∃ v, get_prop newsletter "postSlug" = Return v) as [v ->]
        by (destruct newsletter; try discriminate; simpl; eauto).
      unfold new_array. cbv beta iota.
      destruct (ceil_div (length (user :: rest)) BATCH_SIZE) as [|k] eqn:Hk.
      { pose proof (ceil_div_upper (length (user :: rest)) BATCH_SIZE
                      ltac:(unfold BATCH_SIZE; lia)) as Hup.
        rewrite Hk in Hup. simpl in Hup. lia. }
      assert (∃ tl, slice (0 * BATCH_SIZE) ((0 + 1) * BATCH_SIZE) (user :: rest)
                    = user :: tl) as [tl Htl] by (eexists; reflexivity).
      change (seq 0 (S k)) with (0 :: seq 1 k). cbn [for_each].
      unfold bind. rewrite Htl. cbn [mapM]. unfold bind.
      by rewrite email_of_without_author. }
    rewrite Hsend. by repeat split.
Qed.

Lemma send_throws_before_any_batch_witness :
  is_nullish (VObj [("postSlug", VStr "hello")]) = false ∧
  has_author (VObj [("postSlug", VStr "hello")]) = false ∧
  example_users ≠ [] ∧
  (send example_env example_users (VObj [("postSlug", VStr "hello")]) initial_world).1
  = Throw (TypeError "name") ∧
  is_nullish VUndefined = true ∧
  (send example_env example_users VUndefined initial_world).1
  = Throw (TypeError "postSlug").
Proof.
  destruct (send_throws_before_any_batch example_env example_users
              (VObj [("postSlug", VStr "hello")]) initial_world) as [_ Hauthor].
  destruct (send_throws_before_any_batch example_env example_users
              VUndefined initial_world) as [Hnull _].
  split; [reflexivity|]. split; [reflexivity|]. split; [discriminate|].
  split; [by apply Hauthor|]. split; [reflexivity|]. by apply Hnull.
Defined.

(** ** The sizes of the batches *)

(** Every batch [send] gives to the provider holds at least one message;
    the batch number i holds 500 messages, or all that are left after the
    500 i before it when fewer than 500 are left. *)
Theorem send_batches_are_full_but_the_last (E : Env) (userData : list UserData)
    (newsletter : value) (w : World) :
  has_author newsletter = true →
  ∃ bs : list (list Email),
    submitted (send E userData newsletter w).2 = submitted w ++ bs ∧
    ∀ i b, bs !! i = Some b →
      0 < length b ∧ length b = 500 `min` (length userData - 500 * i).
Proof.
  intros Ha. destruct (send_spec E userData newsletter w Ha) as (g & _ & ->).
  exists (map (map g) (batches_of userData)). split; [reflexivity|].
  intros i b Hb. rewrite list_lookup_fmap in Hb.
  destruct (batches_of userData !! i) as [batch|] eqn:Hi; [|discriminate].
  injection Hb as <-.
  assert (Hlt : i < ceil_div (length userData) BATCH_SIZE).
  { apply lookup_lt_Some in Hi. by rewrite batches_of_length in Hi. }
  rewrite batches_of_lookup in Hi by done. injection Hi as <-.
  assert (Hleft : i * BATCH_SIZE < length userData).
  { destruct (Nat.lt_ge_cases (i * BATCH_SIZE) (length userData)) as [|Hge]; [done|].
    pose proof (ceil_div_least (length userData) BATCH_SIZE i
                  ltac:(unfold BATCH_SIZE; lia) Hge). lia. }
  rewrite length_map. unfold slice. rewrite length_take, length_drop.
  unfold BATCH_SIZE in *. lia.
Qed.

Lemma send_batches_are_full_but_the_last_witness :
  has_author example_content = true ∧
  ∃ bs : list (list Email),
    submitted (send example_env example_users example_content initial_world).2
    = submitted initial_world ++ bs ∧
    ∀ i b, bs !! i = Some b →
      0 < length b ∧ length b = 500 `min` (length example_users - 500 * i).
Proof.
  split; [reflexivity|].
  apply (send_batches_are_full_but_the_last example_env example_users
           example_content initial_world).
  reflexivity.
Defined.

(** ** The fields [send] fills by itself *)

(** In every message, [To] is the address of the user, [From] and
    [TemplateId] are the variables of the environment as they are
    (undefined when unset), while the model's [emailFrom] is always a
    string (empty when the variable is unset or empty) and its
    [website_url] is always a non-empty string. *)
Theorem email_of_defaults (E : Env) (newsletter : value) (user : UserData)
    (w w' : World) (m : Email) :
  email_of E newsletter user w = (Return m, w') →
  w' = w ∧
  To m = email user ∧
  user_email (TemplateModel m) = email user ∧
  username (TemplateModel m) = name user ∧
  user_uuid (TemplateModel m) = uuid user ∧
  From m = of_env (MAIL_FROM E) ∧
  TemplateId m = of_env (MAIL_TEMPLATE_ID E) ∧
  (∃ s, emailFrom (TemplateModel m) = VStr s ∧
        (MAIL_FROM E = None → s = "")) ∧
  (∃ s, website_url (TemplateModel m) = VStr s ∧ s ≠ "" ∧
        (GHOST_URL E = None → s = "https://example.com")).
Proof.
  unfold email_of, bind, lift, ret.
  repeat match goal with
         | |- context [get_prop ?v ?k] => destruct (get_prop v k); [|discriminate]
         end.
  intros [= <- <-]. simpl. repeat split.
  - destruct (MAIL_FROM E) as [s|]; simpl; [|by eexists].
    unfold js_or. simpl. destruct (String.eqb s ""); simpl; by eexists.
  - destruct (GHOST_URL E) as [s|]; simpl.
    + unfold js_or. simpl. destruct (String.eqb_spec s ""); simpl.
      * eexists. by repeat split.
      * eexists. by repeat split.
    + eexists. by repeat split.
Qed.

Lemma email_of_defaults_witness :
  email_of never_connects example_content
    {| email := VStr "bad@example.com"; name := VStr "Bob"; uuid := VStr "member-1" |}
    initial_world
  = (Return
       {| From := VUndefined;
          To := VStr "bad@example.com";
          TemplateId := VUndefined;
          TemplateModel :=
            {| username := VStr "Bob"; emailFrom := VStr "";
               website_url := VStr "https://example.com";
               header_image := VUndefined; user_email := VStr "bad@example.com";
               user_uuid := VStr "member-1"; created_at := VUndefined;
               newsletter_uuid := VUndefined;
               newsletterName := VObj [("name", VStr "News"); ("newsletter_uuid", VUndefined)];
               title := VStr "Hello"; excerpt := VStr "A first post";
               html := VStr "<p>Hello</p>";
               feature_image := VStr "https://blog.example.com/hello.png";
               authorName := VStr "Ann";
               authorImage := VStr "https://blog.example.com/ann.png";
               postUrl := VStr "https://blog.example.com/hello" |} |},
     initial_world) ∧
  From example_email = of_env (MAIL_FROM example_env).
Proof.
  split; [reflexivity|].
  eapply (email_of_defaults example_env example_content
            {| email := VStr "bad@example.com"; name := VStr "Bob"; uuid := VStr "member-1" |}
            initial_world initial_world example_email).
  reflexivity.
Defined.

(** ** The handler on any request *)

Section Requests.
Variable E : Env.

Lemma get_prop_any_key (v x : value) (k k' : string) :
  get_prop v k = Return x → ∃ y, get_prop v k' = Return y.
Proof. destruct v; simpl; intros H; try discriminate; eauto. Qed.

(** Once [postData.post.current.id] has been read, every other field of
    [postData.post.current] can be read as well. *)
Lemma current_readable (postData postId : value) (k : string) :
  get_path postData ["post"; "current"; "id"] = Return postId →
  ∃ v, get_path postData ["post"; "current"; k] = Return v.
Proof.
  simpl. destruct (get_prop postData "post") as [post|]; [|discriminate].
  destruct (get_prop post "current") as [cur|]; [|discriminate].
  destruct (get_prop cur "id") as [x|] eqn:Hid; [|discriminate].
  intros _. destruct (get_prop_any_key cur x "id" k Hid) as [y ->]. eauto.
Qed.

Lemma newsletterData_of_world (postData publication : value) (w : World) :
  (newsletterData_of postData publication w).2 = w.
Proof.
  unfold newsletterData_of, bind, current, lift, ret.
  repeat match goal with
         | |- context [get_path ?v ?p] => destruct (get_path v p); [|reflexivity]
         | |- context [get_prop ?v ?k] => destruct (get_prop v k); [|reflexivity]
         end.
  reflexivity.
Qed.

Lemma newsletterData_of_has_author (postData publication content : value) (w w' : World) :
  newsletterData_of postData publication w = (Return content, w') →
  has_author content = true.
Proof.
  intros H. destruct (newsletterData_of_shape _ _ _ _ _ H)
    as (_ & t & ex & h & u & f & an & ai & sl & _ & _ & ->).
  reflexivity.
Qed.

Lemma newsletterData_of_without_author (postData postId publication author : value)
    (w : World) :
  get_path postData ["post"; "current"; "id"] = Return postId →
  get_path postData ["post"; "current"; "primary_author"] = Return author →
  is_nullish author = true →
  newsletterData_of postData publication w = (Throw (TypeError "name"), w).
Proof.
  intros Hid Hau Hnull. unfold newsletterData_of, bind, current, lift.
  destruct (current_readable postData postId "title" Hid) as [v1 ->].
  destruct (current_readable postData postId "excerpt" Hid) as [v2 ->].
  destruct (current_readable postData postId "html" Hid) as [v3 ->].
  destruct (current_readable postData postId "url" Hid) as [v4 ->].
  destruct (current_readable postData postId "feature_image" Hid) as [v5 ->].
  rewrite Hau. by destruct author.
Qed.

(** The outcomes of the handler once the id has been read. *)
Lemma hooks_outcomes sender postData postId w :
  get_path postData ["post"; "current"; "id"] = Return postId →
  (hooks E sender postData w).1 = Return 200 ∨
  (hooks E sender postData w).1 = Return 500.
Proof.
  intros Hid. rewrite (hooks_with_id E sender _ _ _ Hid).
  unfold try_catch, bind, read_array, sendStatus, throw, ret.
  destruct (getEmailsByPostId E postId w) as [[users|e] w1]; [|by right].
  destruct (getNewsletterNameByPostId E postId w1) as [[pub|e] w2]; [|by right].
  destruct (newsletterData_of postData pub w2) as [[content|e] w3]; [|by right].
  destruct (sender users content w3) as [[a|e] w4]; [|by right].
  destruct (0 <? length (default [] (heap w4 !! a))); [by right|by left].
Qed.
End Requests.

(** When the body of the request has no [post], or its [post] has no
    [current], the handler throws a TypeError outside its [try]: no status
    is sent, no connection is asked for and nothing else is done. *)
Theorem hooks_without_post_sends_no_status (E : Env)
    (sender : list UserData → value → M nat) (postData : value) (w : World) :
  (is_nullish postData = true ∨
   (∃ post, get_prop postData "post" = Return post ∧ is_nullish post = true) ∨
   (∃ post cur, get_prop postData "post" = Return post ∧
                get_prop post "current" = Return cur ∧ is_nullish cur = true)) →
  ∃ k, hooks E sender postData w = (Throw (TypeError k), w).
Proof.
  intros [Hn|[(post & Hp & Hn)|(post & cur & Hp & Hc & Hn)]];
    unfold hooks, bind, current, lift; simpl.
  - destruct postData; try discriminate; by eexists.
  - rewrite Hp. destruct post; try discriminate; by eexists.
  - rewrite Hp, Hc. destruct cur; try discriminate; by eexists.
Qed.

Lemma hooks_without_post_sends_no_status_witness :
  (∃ post, get_prop (VObj []) "post" = Return post ∧ is_nullish post = true) ∧
  ∃ k, hooks example_env (send example_env) (VObj []) initial_world
       = (Throw (TypeError k), initial_world).
Proof.
  assert (H : ∃ post, get_prop (VObj []) "post" = Return post ∧ is_nullish post = true)
    by (by exists VUndefined).
  split; [exact H|].
  apply (hooks_without_post_sends_no_status example_env (send example_env)
           (VObj []) initial_world).
  right. left. exact H.
Defined.

(** Once the id of the post has been read, the handler always answers, with
    200 or with 500, whatever the lookups and the sender do: an error of
    the sender is answered with 500 as well. *)
Theorem hooks_always_answers (E : Env) (sender : list UserData → value → M nat)
    (postData postId : value) (w : World) :
  get_path postData ["post"; "current"; "id"] = Return postId →
  ((hooks E sender postData w).1 = Return 200 ∨
   (hooks E sender postData w).1 = Return 500) ∧
  (∀ users w1 publication w2 content e w3,
     getEmailsByPostId E postId w = (Return users, w1) →
     getNewsletterNameByPostId E postId w1 = (Return publication, w2) →
     newsletterData_of postData publication w2 = (Return content, w2) →
     sender users content w2 = (Throw e, w3) →
     hooks E sender postData w = (Return 500, w3)).
Proof.
  intros Hid. split; [by eapply hooks_outcomes|].
  intros users w1 publication w2 content e w3 He Hn Hc Hs.
  rewrite (hooks_with_id E sender _ _ _ Hid).
  unfold try_catch, bind. by rewrite He, Hn, Hc, Hs.
Qed.

Lemma hooks_always_answers_witness :
  get_path example_post ["post"; "current"; "id"] = Return (VStr "42") ∧
  hooks example_env (fun _ _ => throw (Error "no provider")) example_post initial_world
  = (Return 500,
     (getNewsletterNameByPostId example_env (VStr "42")
        (getEmailsByPostId example_env (VStr "42") initial_world).2).2).
Proof.
  split; [reflexivity|].
  destruct (hooks_always_answers example_env (fun _ _ => throw (Error "no provider"))
              example_post (VStr "42") initial_world eq_refl) as [_ H].
  eapply H; reflexivity.
Defined.

(** When the post of the request has no [primary_author], the handler
    answers 500 and calls no sender, whatever the lookups return: the
    content cannot be built. *)
Theorem hooks_without_author_answers_500 (E : Env) (postData postId author : value)
    (w : World) :
  get_path postData ["post"; "current"; "id"] = Return postId →
  get_path postData ["post"; "current"; "primary_author"] = Return author →
  is_nullish author = true →
  ∃ w', (∀ sender, hooks E sender postData w = (Return 500, w')) ∧
        outbox w' = outbox w.
Proof.
  intros Hid Hau Hnull.
  pose proof (getEmailsByPostId_outbox E postId w) as Ho1.
  destruct (getEmailsByPostId E postId w) as [[users|e] w1] eqn:He.
  - pose proof (getNewsletterNameByPostId_outbox E postId w1) as Ho2.
    destruct (getNewsletterNameByPostId E postId w1) as [[pub|e] w2] eqn:Hn.
    + exists w2. simpl in Ho1, Ho2. split; [|by rewrite Ho2].
      intros sender. rewrite (hooks_with_id E sender _ _ _ Hid).
      unfold try_catch, bind. rewrite He, Hn.
      by rewrite (newsletterData_of_without_author _ _ _ _ _ Hid Hau Hnull).
    + exists w2. simpl in Ho1, Ho2. split; [|by rewrite Ho2].
      intros sender. by eapply hooks_newsletter_fails.
  - exists w1. split; [|exact Ho1]. intros sender. by eapply hooks_emails_fail.
Qed.

Lemma hooks_without_author_answers_500_witness :
  get_path (VObj [("post", VObj [("current", VObj [("id", VStr "42")])])])
    ["post"; "current"; "id"] = Return (VStr "42") ∧
  get_path (VObj [("post", VObj [("current", VObj [("id", VStr "42")])])])
    ["post"; "current"; "primary_author"] = Return VUndefined ∧
  is_nullish VUndefined = true ∧
  ∃ w', (∀ sender,
           hooks example_env sender
             (VObj [("post", VObj [("current", VObj [("id", VStr "42")])])])
             initial_world = (Return 500, w')) ∧
        outbox w' = outbox initial_world.
Proof.
  split; [reflexivity|]. split; [reflexivity|]. split; [reflexivity|].
  apply (hooks_without_author_answers_500 example_env
           (VObj [("post", VObj [("current", VObj [("id", VStr "42")])])])
           (VStr "42") VUndefined initial_world); reflexivity.
Defined.

(** ** A request served with the Postmark sender *)

(** With the Postmark sender, the handler answers 200 exactly when the two
    lookups return and the content can be built; what the provider answers
    has no part in the status. *)
Theorem hooks_with_send_status (E : Env) (postData postId : value) (w : World) :
  get_path postData ["post"; "current"; "id"] = Return postId →
  ((hooks E (send E) postData w).1 = Return 200
   ↔ ∃ users w1 publication w2 content,
       getEmailsByPostId E postId w = (Return users, w1) ∧
       getNewsletterNameByPostId E postId w1 = (Return publication, w2) ∧
       newsletterData_of postData publication w2 = (Return content, w2)) ∧
  ((hooks E (send E) postData w).1 = Return 200 ∨
   (hooks E (send E) postData w).1 = Return 500).
Proof.
  intros Hid. split; [|by eapply hooks_outcomes]. split.
  - rewrite (hooks_with_id E (send E) _ _ _ Hid). unfold try_catch, bind.
    destruct (getEmailsByPostId E postId w) as [[users|e] w1] eqn:He; [|discriminate].
    destruct (getNewsletterNameByPostId E postId w1) as [[pub|e] w2] eqn:Hn; [|discriminate].
    pose proof (newsletterData_of_world postData pub w2) as Hw.
    destruct (newsletterData_of postData pub w2) as [[content|e] w3] eqn:Hc; [|discriminate].
    simpl in Hw. subst w3. intros _. exists users, w1, pub, w2, content.
    by repeat split.
  - intros (users & w1 & pub & w2 & content & He & Hn & Hc).
    eapply hooks_with_send_answers_200; eauto.
    by eapply newsletterData_of_has_author.
Qed.

Lemma hooks_with_send_status_witness :
  get_path example_post ["post"; "current"; "id"] = Return (VStr "42") ∧
  ((hooks example_env (send example_env) example_post initial_world).1 = Return 200
   ∨ (hooks example_env (send example_env) example_post initial_world).1 = Return 500).
Proof.
  split; [reflexivity|].
  apply (hooks_with_send_status example_env example_post (VStr "42") initial_world).
  reflexivity.
Defined.

Section RequestConnections.
Variable E : Env.

Lemma new_array_connections : keeps connections new_array.
Proof. by intros w. Qed.

Lemma push_connections a s : keeps connections (push a s).
Proof. by intros w. Qed.

Lemma read_array_connections a : keeps connections (read_array a).
Proof. by intros w. Qed.

Lemma submit_connections b a : keeps connections (submit E b a).
Proof. by intros w. Qed.

Hint Resolve new_array_connections push_connections read_array_connections
  submit_connections : keeps.

Lemma send_connections userData newsletter :
  keeps connections (send E userData newsletter).
Proof. unfold send, email_of. eauto 30 with keeps. Qed.

(** What follows the two lookups in the handler. *)
Lemma dispatch_connections postData users publication (K : error → M nat) w :
  (∀ e, keeps connections (K e)) →
  connections
    (try_catch
       (newsletterData <- newsletterData_of postData publication ;;
        failureEmails <- send E users newsletterData ;;
        failed <- read_array failureEmails ;;
        if 0 <? length failed
        then throw (Error ("Failed emails list: " ++ String.concat "," failed)%string)
        else sendStatus 200) K w).2
  = connections w.
Proof.
  intros HK.
  apply (keeps_try_catch connections); [|exact HK].
  unfold newsletterData_of, current, sendStatus.
  pose proof send_connections. eauto 40 with keeps.
Qed.
End RequestConnections.

Lemma resolvers_paths_calls (E : Env) (postId : value) (w : World) :
  connect_calls (getEmailsByPostId E postId w).2 = S (connect_calls w) ∧
  connect_calls (getNewsletterNameByPostId E postId w).2 = S (connect_calls w).
Proof.
  rewrite getEmailsByPostId_paths, getNewsletterNameByPostId_paths.
  unfold getConnection. destruct (createConnection E _); [|done]. split.
  - by destruct (execute E EMAILS_QUERY postId).
  - by destruct (execute E NEWSLETTER_QUERY postId) as [[|tuple rest]|].
Qed.

Lemma try_catch_bind {A B} (m : M A) (k : A → M B) (h : error → M B) (w : World) :
  try_catch (bind m k) h w
  = match m w with
    | (Return a, w1) => try_catch (k a) h w1
    | (Throw e, w1) => h e w1
    end.
Proof. unfold try_catch, bind. by destruct (m w) as [[a|e] w1]. Qed.

Lemma hooks_id_unreadable (E : Env) (sender : list UserData → value → M nat)
    (postData : value) (e : error) (w : World) :
  get_path postData ["post"; "current"; "id"] = Throw e →
  hooks E sender postData w = (Throw e, w).
Proof. intros Hid. unfold hooks, bind, current, lift. by rewrite Hid. Qed.

(** The connections of one request served with the Postmark sender, lookup
    by lookup. *)
Lemma hooks_connections (E : Env) (postData postId : value) (w : World) :
  get_path postData ["post"; "current"; "id"] = Return postId →
  connections (hooks E (send E) postData w).2
  = match getEmailsByPostId E postId w with
    | (Return _, w1) => connections (getNewsletterNameByPostId E postId w1).2
    | (Throw _, w1) => connections w1
    end.
Proof.
  intros Hid. rewrite (hooks_with_id E (send E) _ _ _ Hid).
  rewrite try_catch_bind.
  destruct (getEmailsByPostId E postId w) as [[users|e] w1]; [|done].
  rewrite try_catch_bind.
  destruct (getNewsletterNameByPostId E postId w1) as [[pub|e] w2]; [|done].
  simpl. apply dispatch_connections. intros e. by intros w0.
Qed.

(** A request never retries a connection and never sleeps: it leaves the
    attempt counter alone and asks for at most two connections, one for
    each lookup, and for one only when the first is refused. *)
Theorem request_asks_for_at_most_two_connections (E : Env) (postData : value)
    (w : World) :
  retry_state (hooks E (send E) postData w).2 = retry_state w ∧
  connect_calls w ≤ connect_calls (hooks E (send E) postData w).2 ≤ connect_calls w + 2 ∧
  (∀ postId,
     get_path postData ["post"; "current"; "id"] = Return postId →
     createConnection E (connect_calls w) = false →
     hooks E (send E) postData w = (Return 500, (getConnection E w).2) ∧
     connect_calls (hooks E (send E) postData w).2 = S (connect_calls w)).
Proof.
  split; [|split].
  - apply hooks_keeps_retry_state. intros. apply send_keeps_retry_state.
  - destruct (get_path postData ["post"; "current"; "id"]) as [postId|e] eqn:Hid.
    + pose proof (hooks_connections E postData postId w Hid) as Hc.
      destruct (resolvers_paths_calls E postId w) as [He _].
      destruct (getEmailsByPostId E postId w) as [[users|e] w1]; simpl in He.
      * destruct (resolvers_paths_calls E postId w1) as [_ Hn].
        unfold connections in Hc. injection Hc as Hc _. lia.
      * unfold connections in Hc. injection Hc as Hc _. lia.
    + rewrite (hooks_id_unreadable E (send E) postData e w Hid). simpl. lia.
  - intros postId Hid Hrefused.
    assert (He : getEmailsByPostId E postId w = (Throw ConnectError, (getConnection E w).2)).
    { rewrite getEmailsByPostId_paths. unfold getConnection. by rewrite Hrefused. }
    rewrite (hooks_emails_fail E (send E) _ _ _ _ _ Hid He).
    split; [done|]. unfold getConnection. by rewrite Hrefused.
Qed.

Lemma request_asks_for_at_most_two_connections_witness :
  get_path example_post ["post"; "current"; "id"] = Return (VStr "42") ∧
  createConnection never_connects (connect_calls initial_world) = false ∧
  hooks never_connects (send never_connects) example_post initial_world
  = (Return 500, (getConnection never_connects initial_world).2) ∧
  connect_calls (hooks never_connects (send never_connects) example_post initial_world).2
  = S (connect_calls initial_world).
Proof.
  split; [reflexivity|]. split; [reflexivity|].
  destruct (request_asks_for_at_most_two_connections never_connects example_post
              initial_world) as (_ & _ & H).
  apply (H (VStr "42")); reflexivity.
Defined.

(** A request whose two connections are accepted and whose subscriber
    query is answered ends with exactly one more connection open than
    before, the one of the publication lookup, whatever that lookup, the
    content and the provider give. *)
Theorem request_leaves_one_connection_open (E : Env) (postData postId : value)
    (w : World) :
  get_path postData ["post"; "current"; "id"] = Return postId →
  createConnection E (connect_calls w) = true →
  createConnection E (S (connect_calls w)) = true →
  execute E EMAILS_QUERY postId ≠ None →
  (∀ c, c ∈ open_connections w → c < connect_calls w) →
  open_connections (hooks E (send E) postData w).2
  = {[S (connect_calls w)]} ∪ open_connections w ∧
  (S (connect_calls w) ∉ open_connections w) ∧
  (∀ c, c ∈ open_connections (hooks E (send E) postData w).2 →
        c < connect_calls (hooks E (send E) postData w).2).
Proof.
  intros Hid Hc1 Hc2 Hq Hfresh.
  pose proof (hooks_connections E postData postId w Hid) as Hc.
  rewrite getEmailsByPostId_paths in Hc. unfold getConnection in Hc.
  rewrite Hc1 in Hc. destruct (execute E EMAILS_QUERY postId) as [tuples|]; [|done].
  rewrite getNewsletterNameByPostId_paths in Hc. unfold getConnection in Hc.
  simpl in Hc. rewrite Hc2 in Hc.
  assert (Hc' : connections (hooks E (send E) postData w).2
                = (S (S (connect_calls w)),
                   {[S (connect_calls w)]}
                   ∪ ({[connect_calls w]} ∪ open_connections w) ∖ {[connect_calls w]})).
  { rewrite Hc. by destruct (execute E NEWSLETTER_QUERY postId) as [[|t r]|]. }
  unfold connections in Hc'. injection Hc' as Hcalls Hopen.
  assert (Hnot : connect_calls w ∉ open_connections w).
  { intros Hin. specialize (Hfresh _ Hin). lia. }
  assert (Hsame : ({[connect_calls w]} ∪ open_connections w) ∖ {[connect_calls w]}
                  = open_connections w).
  { apply set_eq. intros c.
    rewrite elem_of_difference, elem_of_union, !elem_of_singleton.
    split; [intros [[->|Hin] Hne]; done|].
    intros Hin. split; [by right|]. intros ->. done. }
  rewrite Hopen, Hcalls, Hsame. split; [done|]. split.
  - intros Hin. specialize (Hfresh _ Hin). lia.
  - intros c. rewrite elem_of_union, elem_of_singleton.
    intros [->|Hin]; [lia|]. specialize (Hfresh _ Hin). lia.
Qed.

Lemma request_leaves_one_connection_open_witness :
  get_path example_post ["post"; "current"; "id"] = Return (VStr "42") ∧
  createConnection example_env (connect_calls initial_world) = true ∧
  createConnection example_env (S (connect_calls initial_world)) = true ∧
  execute example_env EMAILS_QUERY (VStr "42") ≠ None ∧
  (∀ c, c ∈ open_connections initial_world → c < connect_calls initial_world) ∧
  open_connections (hooks example_env (send example_env) example_post initial_world).2
  = {[S (connect_calls initial_world)]} ∪ open_connections initial_world.
Proof.
  assert (Hfresh : ∀ c, c ∈ open_connections initial_world →
                        c < connect_calls initial_world).
  { intros c Hin. simpl in Hin. by apply not_elem_of_empty in Hin. }
  split; [reflexivity|]. split; [reflexivity|]. split; [reflexivity|].
  split; [discriminate|]. split; [exact Hfresh|].
  apply (request_leaves_one_connection_open example_env example_post (VStr "42")
           initial_world); try reflexivity; [discriminate|exact Hfresh].
Defined.

(** ** [setup] *)

Section Startup.
Variable E : Env.
Variable EMAIL_PROVIDER : option string.
Variable createBatchEmailSender : string → M (list UserData → value → M nat).

Lemma attempt_outcome w :
  (attemptToConnectMySql E w).1 = Return true ∨
  (attemptToConnectMySql E w).1
  = Throw (Error "Failed to connect to the database after multiple attempts.").
Proof.
  destruct (attempt_outcome_of_budget E w) as [Hsome Hall].
  destruct (budget_dichotomy E (CONNECTION_ATTEMPTS w) (connect_calls w))
    as [(j & Hj & _ & Hok)|Hnone].
  - left. apply Hsome. eauto.
  - right. by apply Hall.
Qed.

(** [setup], case by case. *)
Lemma setup_cases w :
  setup E EMAIL_PROVIDER createBatchEmailSender w =
  match attemptToConnectMySql E w with
  | (Throw _, w1) => (Return NotStarted, w1)
  | (Return _, w1) =>
      match EMAIL_PROVIDER with
      | None => (Return NotStarted, w1)
      | Some provider =>
          if String.eqb provider "" then (Return NotStarted, w1)
          else match createBatchEmailSender provider w1 with
               | (Return sender, w2) => (Return (Listening sender), w2)
               | (Throw _, w2) => (Return NotStarted, w2)
               end
      end
  end.
Proof.
  unfold setup. unfold bind at 1. rewrite try_catch_bind.
  pose proof (attempt_outcome w) as Hout.
  destruct (attemptToConnectMySql E w) as [[connected|e] w1]; [|done].
  simpl in Hout. destruct Hout as [[= ->]|]; [|done].
  destruct EMAIL_PROVIDER as [provider|]; simpl; [|done].
  destruct (String.eqb provider ""); simpl; [done|].
  unfold try_catch, bind.
  by destruct (createBatchEmailSender provider w1) as [[sender|e] w2].
Qed.
End Startup.

(** [setup] starts the server exactly when the connection check returns
    true, the provider is named (the variable is set and not empty) and the
    factory returns a sender for that name; the server then uses that
    sender.  In every other case [setup] ends without a server; it never
    throws. *)
Theorem setup_listens_iff (E : Env) (EMAIL_PROVIDER : option string)
    (createBatchEmailSender : string → M (list UserData → value → M nat))
    (w : World) (sender : list UserData → value → M nat) :
  ((setup E EMAIL_PROVIDER createBatchEmailSender w).1 = Return (Listening sender)
   ↔ (attemptToConnectMySql E w).1 = Return true ∧
     ∃ provider, EMAIL_PROVIDER = Some provider ∧ provider ≠ "" ∧
       (createBatchEmailSender provider (attemptToConnectMySql E w).2).1
       = Return sender) ∧
  ((setup E EMAIL_PROVIDER createBatchEmailSender w).1 = Return NotStarted ∨
   ∃ s, (setup E EMAIL_PROVIDER createBatchEmailSender w).1 = Return (Listening s)).
Proof.
  rewrite setup_cases. pose proof (attempt_outcome E w) as Hout.
  destruct (attemptToConnectMySql E w) as [[connected|e] w1]; simpl in *.
  - destruct Hout as [[= ->]|]; [|done].
    destruct EMAIL_PROVIDER as [provider|]; simpl.
    + destruct (String.eqb_spec provider "") as [->|Hne]; simpl.
      * split; [|by left]. split; [done|]. by intros (_ & p & [= <-] & Hp & _).
      * destruct (createBatchEmailSender provider w1) as [[s|e] w2] eqn:Hf; simpl.
        -- split; [|right; by eexists]. split.
           ++ intros [= ->]. split; [done|]. exists provider. by rewrite Hf.
           ++ intros (_ & p & [= <-] & _ & Hs). rewrite Hf in Hs. simpl in Hs.
              by injection Hs as ->.
        -- split; [|by left]. split; [done|].
           intros (_ & p & [= <-] & _ & Hs). by rewrite Hf in Hs.
    + split; [|by left]. split; [done|]. by intros (_ & p & ? & _).
  - split; [|by left]. split; [done|]. by intros [? _].
Qed.

Lemma setup_listens_iff_witness :
  (attemptToConnectMySql example_env initial_world).1 = Return true ∧
  (setup example_env (Some "postmark") (fun _ => ret (send example_env)) initial_world).1
  = Return (Listening (send example_env)).
Proof.
  split; [reflexivity|].
  apply (setup_listens_iff example_env (Some "postmark")
           (fun _ => ret (send example_env)) initial_world (send example_env)).
  split; [reflexivity|]. exists "postmark". by repeat split.
Defined.

(** When the connection check fails, or the provider is not named,
    [setup] starts no server and does not call the factory: the world is
    the one the connection check left, with its connection still open when
    the check had succeeded. *)
Theorem setup_without_connection_or_provider (E : Env)
    (EMAIL_PROVIDER : option string)
    (createBatchEmailSender : string → M (list UserData → value → M nat))
    (w : World) :
  (attemptToConnectMySql E w).1 ≠ Return true ∨
  EMAIL_PROVIDER = None ∨ EMAIL_PROVIDER = Some "" →
  setup E EMAIL_PROVIDER createBatchEmailSender w
  = (Return NotStarted, (attemptToConnectMySql E w).2).
Proof.
  intros Hno. rewrite setup_cases. pose proof (attempt_outcome E w) as Hout.
  destruct (attemptToConnectMySql E w) as [[connected|e] w1]; simpl in *; [|done].
  destruct Hout as [[= ->]|]; [|done].
  destruct Hno as [Hno|[->| ->]]; done.
Qed.

Lemma setup_without_connection_or_provider_witness :
  (attemptToConnectMySql never_connects initial_world).1 ≠ Return true ∧
  setup never_connects (Some "postmark") (fun _ => ret (send never_connects)) initial_world
  = (Return NotStarted, (attemptToConnectMySql never_connects initial_world).2) ∧
  setup example_env None (fun _ => ret (send example_env)) initial_world
  = (Return NotStarted, (attemptToConnectMySql example_env initial_world).2) ∧
  0 ∈ open_connections (attemptToConnectMySql example_env initial_world).2.
Proof.
  assert (Hfail : (attemptToConnectMySql never_connects initial_world).1 ≠ Return true)
    by (vm_compute; discriminate).
  split; [exact Hfail|]. split; [|split].
  - apply (setup_without_connection_or_provider never_connects (Some "postmark")
             (fun _ => ret (send never_connects)) initial_world).
    by left.
  - apply (setup_without_connection_or_provider example_env None
             (fun _ => ret (send example_env)) initial_world).
    right. by left.
  - unfold initial_world.
    rewrite attempt_connects by (reflexivity || unfold MAX_CXN_RETRIES; lia).
    simpl. apply elem_of_union_l. by apply elem_of_singleton.
Defined.

(** ** A post without subscribers *)

Lemma newsletterData_of_total (postData postId author publication : value) (w : World) :
  get_path postData ["post"; "current"; "id"] = Return postId →
  get_path postData ["post"; "current"; "primary_author"] = Return author →
  is_nullish author = false →
  ∃ content, newsletterData_of postData publication w = (Return content, w).
Proof.
  intros Hid Hau Hnull. unfold newsletterData_of, bind, current, lift.
  destruct (current_readable postData postId "title" Hid) as [v1 ->].
  destruct (current_readable postData postId "excerpt" Hid) as [v2 ->].
  destruct (current_readable postData postId "html" Hid) as [v3 ->].
  destruct (current_readable postData postId "url" Hid) as [v4 ->].
  destruct (current_readable postData postId "feature_image" Hid) as [v5 ->].
  destruct (current_readable postData postId "slug" Hid) as [v6 ->].
  rewrite Hau.
  assert (∃ v, get_prop author "name" = Return v) as [v7 ->]
    by (destruct author; try discriminate; simpl; eauto).
  assert (∃ v, get_prop author "profile_image" = Return v) as [v8 ->]
    by (destruct author; try discriminate; simpl; eauto).
  by eexists.
Qed.

(** When the subscriber lookup finds no row and the publication lookup
    finds one, the handler answers 200 although nothing was sent: [send]
    is called with no recipient, makes no call to the provider and leaves
    no callback. *)
Theorem request_without_subscribers (E : Env) (postData postId author : value)
    (w : World) :
  get_path postData ["post"; "current"; "id"] = Return postId →
  get_path postData ["post"; "current"; "primary_author"] = Return author →
  is_nullish author = false →
  createConnection E (connect_calls w) = true →
  createConnection E (S (connect_calls w)) = true →
  execute E EMAILS_QUERY postId = Some [] →
  (∃ tuple rest, execute E NEWSLETTER_QUERY postId = Some (tuple :: rest)) →
  (hooks E (send E) postData w).1 = Return 200 ∧
  submitted (hooks E (send E) postData w).2 = submitted w ∧
  microtasks (hooks E (send E) postData w).2 = microtasks w.
Proof.
  intros Hid Hau Hnull Hc1 Hc2 Hq (tuple & rest & Hp).
  pose proof (getEmailsByPostId_outbox E postId w) as Ho1.
  pose proof (resolvers_paths_calls E postId w) as [Hcalls _].
  assert (He : ∃ w1, getEmailsByPostId E postId w = (Return [], w1)).
  { rewrite getEmailsByPostId_paths. unfold getConnection. rewrite Hc1, Hq.
    by eexists. }
  destruct He as [w1 He]. rewrite He in Ho1, Hcalls. simpl in Ho1, Hcalls.
  pose proof (getNewsletterNameByPostId_outbox E postId w1) as Ho2.
  assert (Hn : ∃ pub w2, getNewsletterNameByPostId E postId w1 = (Return pub, w2)).
  { rewrite getNewsletterNameByPostId_paths. unfold getConnection.
    rewrite Hcalls, Hc2, Hp. by eexists _, _. }
  destruct Hn as (pub & w2 & Hn). rewrite Hn in Ho2. simpl in Ho2.
  destruct (newsletterData_of_total postData postId author pub w2 Hid Hau Hnull)
    as [content Hc].
  destruct (send_spec E [] content w2 (newsletterData_of_has_author _ _ _ _ _ Hc))
    as (g & _ & Hsend).
  change (map (map g) (batches_of [])) with (@nil (list Email)) in Hsend.
  rewrite with_submissions_nil in Hsend.
  set (w3 := (new_array w2).2) in Hsend.
  assert (Hs : submitted w3 = submitted w2) by reflexivity.
  assert (Hm : microtasks w3 = microtasks w2) by reflexivity.
  rewrite (hooks_dispatched E (send E) _ _ _ _ _ _ _ _ _ _ Hid He Hn Hc Hsend).
  assert (Hh : heap w3 !! next_loc w2 = Some [])
    by (subst w3; simpl; apply lookup_insert_eq).
  rewrite Hh. simpl.
  unfold outbox in Ho1, Ho2. injection Ho1 as _ _ Hm1 Hs1.
  injection Ho2 as _ _ Hm2 Hs2.
  split; [done|]. split; congruence.
Qed.

Lemma request_without_subscribers_witness :
  get_path example_post ["post"; "current"; "id"] = Return (VStr "42") ∧
  execute
    {| createConnection := fun _ => true;
       execute := fun q _ => match q with
                             | EMAILS_QUERY => Some []
                             | NEWSLETTER_QUERY => Some [[VStr "News"; VStr "newsletter-1"]]
                             end;
       sendEmailBatchWithTemplates := fun _ => Rejected;
       MAIL_FROM := None; MAIL_TEMPLATE_ID := None; GHOST_URL := None |}
    EMAILS_QUERY (VStr "42") = Some [] ∧
  (hooks
     {| createConnection := fun _ => true;
        execute := fun q _ => match q with
                              | EMAILS_QUERY => Some []
                              | NEWSLETTER_QUERY => Some [[VStr "News"; VStr "newsletter-1"]]
                              end;
        sendEmailBatchWithTemplates := fun _ => Rejected;
        MAIL_FROM := None; MAIL_TEMPLATE_ID := None; GHOST_URL := None |}
     (send
        {| createConnection := fun _ => true;
           execute := fun q _ => match q with
                                 | EMAILS_QUERY => Some []
                                 | NEWSLETTER_QUERY => Some [[VStr "News"; VStr "newsletter-1"]]
                                 end;
           sendEmailBatchWithTemplates := fun _ => Rejected;
           MAIL_FROM := None; MAIL_TEMPLATE_ID := None; GHOST_URL := None |})
     example_post initial_world).1 = Return 200.
Proof.
  split; [reflexivity|]. split; [reflexivity|].
  eapply (request_without_subscribers _ example_post (VStr "42")
            (VObj [("name", VStr "Ann"); ("profile_image", VStr "https://blog.example.com/ann.png");
                   ("url", VStr "https://blog.example.com/ann")])
            initial_world); try reflexivity.
  by eexists _, _.
Defined.
